(** * The data-preparation pipeline of the expected-goals notebook

    A shallow embedding of the code cells of [how-to-expected-goals.ipynb]
    that count, normalize and assemble the shots dataset, and of the cells
    that split it and compute the baseline for AUC-PR.

    Modelling decisions, fixed once for the whole development:

    - a pandas [DataFrame] is a row count together with a finite map from
      column names to typed columns (float64, int64, bool, or strings);
    - the finite values of a float64 column are real numbers: the arithmetic
      of the notebook is read over [R], so rounding, NaN and infinities that
      sit in the input are outside the model.  The one non-finite value the
      code itself can create, a quotient by a zero count, is a scalar of its
      own ([SNaN], [SInf]);
    - int64 values are integers; the one place where the code sums them
      wraps around at 64 bits;
    - a code cell is a computation that either raises or returns, and that
      leaves a trace of what it printed. *)

From Stdlib Require Import ZArith Reals Lra Lia QArith Qround.
From stdpp Require Import base option list strings gmap.

Local Open Scope Z_scope.

(** ** Scalars and columns *)

Inductive scalar :=
  | SInt (z : Z)
  | SFloat (r : R)
  | SBool (b : bool)
  | SStr (s : string)
  | SNaN
  | SInf (negative : bool).

Inductive column :=
  | Float64 (xs : list R)
  | Int64 (zs : list Z)
  | Bool (bs : list bool)
  | StrCol (ss : list string).

Definition col_length (c : column) : nat :=
  match c with
  | Float64 xs => length xs
  | Int64 zs => length zs
  | Bool bs => length bs
  | StrCol ss => length ss
  end.

(** [c.iloc[i]]: the value of a column at a position. *)
Definition cell (c : column) (i : nat) : option scalar :=
  match c with
  | Float64 xs => SFloat <$> xs !! i
  | Int64 zs => SInt <$> zs !! i
  | Bool bs => SBool <$> bs !! i
  | StrCol ss => SStr <$> ss !! i
  end.

Definition b2r (b : bool) : R := if b then 1%R else 0%R.

(** The number a scalar stands for in arithmetic; a string has none. *)
Definition to_float (v : scalar) : option R :=
  match v with
  | SInt z => Some (IZR z)
  | SFloat r => Some r
  | SBool b => Some (b2r b)
  | SStr _ | SNaN | SInf _ => None
  end.

#[global] Instance R_eq_dec : EqDecision R := Req_dec_T.
#[global] Instance R_lt_dec : RelDecision Rlt := Rlt_dec.

(** ** Cells: exceptions and printed output *)

Inductive exn :=
  | KeyError
  | TypeError
  | ValueError
  | IndexError.

(** [print(template.format(args))] *)
Inductive output :=
  | Printed (template : string) (args : list scalar).

Definition Cell (A : Type) : Type := (list output * (exn + A))%type.

Definition stdout {A} (m : Cell A) : list output := fst m.
Definition outcome {A} (m : Cell A) : exn + A := snd m.

Definition raise {A} (e : exn) : Cell A := ([], inl e).
Definition print (template : string) (args : list scalar) : Cell unit :=
  ([Printed template args], inr tt).

#[global] Instance cell_ret : MRet Cell := λ A a, ([], inr a).

#[global] Instance cell_bind : MBind Cell := λ A B f m,
  match m with
  | (o, inl e) => (o, inl e)
  | (o, inr a) => let r := f a in (o ++ fst r, snd r)
  end.

(** [for x in xs: s = body(x, s)] *)
Fixpoint for_each {A S} (xs : list A) (body : A → S → Cell S) (s : S) : Cell S :=
  match xs with
  | [] => mret s
  | x :: xs' => s' ← body x s; for_each xs' body s'
  end.

(** [[f(x) for x in xs]], stopping at the first exception. *)
Fixpoint map_cell {A B} (f : A → Cell B) (xs : list A) : Cell (list B) :=
  match xs with
  | [] => mret []
  | x :: xs' => y ← f x; ys ← map_cell f xs'; mret (y :: ys)
  end.

(** ** Data frames *)

(** The frame the notebook loads and then updates cell after cell.  Its rows
    are addressed by position (the default index [0 .. nrows-1]). *)
Record DataFrame := mkDataFrame {
  nrows : nat;
  columns : gmap string column
}.

(** Every column of a frame has one value per row. *)
Definition well_formed (df : DataFrame) : Prop :=
  ∀ key c, columns df !! key = Some c → col_length c = nrows df.

(** [df[key]] *)
Definition getitem (df : DataFrame) (key : string) : Cell column :=
  match columns df !! key with
  | Some c => mret c
  | None => raise KeyError
  end.

(** [df[key] = c] *)
Definition setitem (df : DataFrame) (key : string) (c : column) : DataFrame :=
  {| nrows := nrows df; columns := <[key := c]> (columns df) |}.

(** [c / n] for a positive integer literal [n]: true division, float64 result.
    Strings cannot be divided; a column of no strings has nothing to fail on. *)
Definition truediv (c : column) (n : positive) : Cell column :=
  match c with
  | Float64 xs => mret (Float64 (map (λ x, x / IZR (Zpos n))%R xs))
  | Int64 zs => mret (Float64 (map (λ z, IZR z / IZR (Zpos n))%R zs))
  | Bool bs => mret (Float64 (map (λ b, b2r b / IZR (Zpos n))%R bs))
  | StrCol [] => mret (StrCol [])
  | StrCol (_ :: _) => raise TypeError
  end.

(** [c == k] for an integer literal [k]: elementwise, never raises. *)
Definition eq_scalar (c : column) (k : Z) : column :=
  match c with
  | Float64 xs => Bool (map (λ x, bool_decide (x = IZR k)) xs)
  | Int64 zs => Bool (map (λ z, z =? k) zs)
  | Bool bs => Bool (map (λ b, Z.b2z b =? k) bs)
  | StrCol ss => Bool (map (λ _, false) ss)
  end.

(** ** Explore the dataset *)

(** [number_of_shots = len(df_dataset)], printed. *)
Definition count_shots (df_dataset : DataFrame) : Cell Z :=
  let number_of_shots := Z.of_nat (nrows df_dataset) in
  _ ← print "Our dataset contains {} shots." [SInt number_of_shots];
  mret number_of_shots.

(** ** Normalize the location features *)

Definition actions : list string := ["action"; "action1"; "action2"].
Definition sides : list string := ["start"; "end"].

(** ['{}_{}_x'.format(action, side)] and its [y] twin. *)
Definition key_x (action side : string) : string := action +:+ "_" +:+ side +:+ "_x".
Definition key_y (action side : string) : string := action +:+ "_" +:+ side +:+ "_y".

Definition normalize_side (action side : string) (df_dataset : DataFrame) : Cell DataFrame :=
  cx ← getitem df_dataset (key_x action side);
  cx' ← truediv cx 105;
  let df_dataset := setitem df_dataset (key_x action side) cx' in
  cy ← getitem df_dataset (key_y action side);
  cy' ← truediv cy 68;
  mret (setitem df_dataset (key_y action side) cy').

Definition normalize (df_dataset : DataFrame) : Cell DataFrame :=
  for_each actions
    (λ action df, for_each sides (λ side df, normalize_side action side df) df)
    df_dataset.

(** ** Compute additional features *)

(** Normalized location for the center of the opposing goal. *)
Definition goal : R * R := (1, 0.5)%R.

(** [scipy.spatial.distance.euclidean(u, v)]: the 2-norm of [u - v], that is
    the square root of the dot product of [u - v] with itself. *)
Definition euclidean (u : scalar * scalar) (v : R * R) : Cell R :=
  match to_float u.1, to_float u.2 with
  | Some u1, Some u2 =>
      let d1 := (u1 - v.1)%R in
      let d2 := (u2 - v.2)%R in
      mret (sqrt (d1 * d1 + d2 * d2))
  | _, _ => raise TypeError
  end.

(** The row at position [i], as a mapping from column names to values. *)
Definition iloc_row (df : DataFrame) (i : nat) : gmap string scalar :=
  omap (λ c, cell c i) (columns df).

(** [s[key]] on a row. *)
Definition getitem_row (s : gmap string scalar) (key : string) : Cell scalar :=
  match s !! key with
  | Some v => mret v
  | None => raise KeyError
  end.

(** [df.apply(f, axis=1)] for an [f] that returns floats: [f] is called on
    the rows in order. *)
Definition apply_rows (df : DataFrame) (f : gmap string scalar → Cell R) : Cell column :=
  xs ← map_cell (λ i, f (iloc_row df i)) (seq 0 (nrows df));
  mret (Float64 xs).

Definition start_distance (action : string) (df_dataset : DataFrame) : Cell DataFrame :=
  let key_start_x := action +:+ "_start_x" in
  let key_start_y := action +:+ "_start_y" in
  let key_start_distance := action +:+ "_start_distance" in
  d ← apply_rows df_dataset
        (λ s, x ← getitem_row s key_start_x;
              y ← getitem_row s key_start_y;
              euclidean (x, y) goal);
  mret (setitem df_dataset key_start_distance d).

(** Compute distance to goal for each action's start location. *)
Definition compute_distances (df_dataset : DataFrame) : Cell DataFrame :=
  for_each actions start_distance df_dataset.

Definition body_part (action : string) (df_dataset : DataFrame) : Cell DataFrame :=
  let key_body_part_id := action +:+ "_body_part_id" in
  let key_is_foot := action +:+ "_is_foot" in
  let key_is_head := action +:+ "_is_head" in
  let key_is_other := action +:+ "_is_other" in
  c ← getitem df_dataset key_body_part_id;
  let df_dataset := setitem df_dataset key_is_foot (eq_scalar c 0) in
  c ← getitem df_dataset key_body_part_id;
  let df_dataset := setitem df_dataset key_is_head (eq_scalar c 1) in
  c ← getitem df_dataset key_body_part_id;
  mret (setitem df_dataset key_is_other (eq_scalar c 2)).

(** Determine body part used for each action. *)
Definition determine_body_part (df_dataset : DataFrame) : Cell DataFrame :=
  for_each actions body_part df_dataset.

(** ** Construct the dataset *)

Definition columns_features : list string :=
  [ "action_start_x";
    "action_start_y";
    "action_is_foot";
    "action_is_head";
    "action_start_distance";
    "action1_start_distance";
    "action2_start_distance" ].

(** Label: 1 if a goal, 0 otherwise. *)
Definition column_target : string := "action_result".

(** A selection of rows and columns of the loaded frame: the labels of the
    rows it keeps, and its columns in the order they were asked for. *)
Record Frame := mkFrame {
  f_index : list nat;
  f_columns : list (string * column)
}.

Record Series := mkSeries {
  s_index : list nat;
  s_values : column
}.

(** [df[keys]] for a list of keys. *)
Definition getitem_list (df : DataFrame) (keys : list string) : Cell Frame :=
  cs ← map_cell (λ key, c ← getitem df key; mret (key, c)) keys;
  mret {| f_index := seq 0 (nrows df); f_columns := cs |}.

(** [df[key]] as a series that remembers its row labels. *)
Definition getitem_series (df : DataFrame) (key : string) : Cell Series :=
  c ← getitem df key;
  mret {| s_index := seq 0 (nrows df); s_values := c |}.

(** [X = df_dataset[columns_features]; y = df_dataset[column_target]] *)
Definition construct_dataset (df_dataset : DataFrame) : Cell (Frame * Series) :=
  X ← getitem_list df_dataset columns_features;
  y ← getitem_series df_dataset column_target;
  mret (X, y).

(** The cells from the normalization to the construction of [X] and [y]. *)
Definition prepare (df_dataset : DataFrame) : Cell (Frame * Series) :=
  df_dataset ← normalize df_dataset;
  df_dataset ← compute_distances df_dataset;
  df_dataset ← determine_body_part df_dataset;
  construct_dataset df_dataset.

(** ** Split the dataset into a train set and a test set *)

(** Positional selection [xs[rows]]; a position past the end is an error. *)
Definition take_rows {A} (xs : list A) (rows : list nat) : Cell (list A) :=
  map_cell (λ i, match xs !! i with
                 | Some x => mret x
                 | None => raise IndexError
                 end) rows.

Definition iloc (c : column) (rows : list nat) : Cell column :=
  match c with
  | Float64 xs => xs' ← take_rows xs rows; mret (Float64 xs')
  | Int64 zs => zs' ← take_rows zs rows; mret (Int64 zs')
  | Bool bs => bs' ← take_rows bs rows; mret (Bool bs')
  | StrCol ss => ss' ← take_rows ss rows; mret (StrCol ss')
  end.

Definition iloc_frame (X : Frame) (rows : list nat) : Cell Frame :=
  idx ← take_rows (f_index X) rows;
  cs ← map_cell (λ kc : string * column, c ← iloc kc.2 rows; mret (kc.1, c)) (f_columns X);
  mret {| f_index := idx; f_columns := cs |}.

Definition iloc_series (y : Series) (rows : list nat) : Cell Series :=
  idx ← take_rows (s_index y) rows;
  c ← iloc (s_values y) rows;
  mret {| s_index := idx; s_values := c |}.

(** Modelled from the spec: the splitter.  The notebook calls
    [train_test_split(X, y, test_size=0.10)] of scikit-learn, whose code is not
    part of the repository.  Following section 4.4 of the specification, it
    partitions the rows of [X] and [y] with one random row-wise split, the same
    rows for both; the test partition gets [ceil(test_size * N)] of the [N]
    rows (the specification's "about round(N × 0.10)", the count scikit-learn
    documents), the train partition the others; inputs of different lengths, a
    [test_size] outside (0, 1) and a split that leaves no row to train on are
    configuration errors (section 7, c).  The random draw is the argument
    [permutation], an ordering of the positions [0 .. N-1]: the first
    [n_test] of them are the test rows, the rest the train rows. *)
Definition train_test_split (X : Frame) (y : Series) (test_size : Q)
    (permutation : list nat) : Cell (Frame * Frame * Series * Series) :=
  let n_samples := length (f_index X) in
  if negb (length (s_index y) =? n_samples)%nat then raise ValueError else
  if Qle_bool test_size 0 || Qle_bool 1 test_size then raise ValueError else
  let n_test := Z.to_nat (Qceiling (test_size * inject_Z (Z.of_nat n_samples))) in
  let n_train := (n_samples - n_test)%nat in
  if (n_train =? 0)%nat then raise ValueError else
  let test := take n_test permutation in
  let train := take n_train (drop n_test permutation) in
  X_train ← iloc_frame X train;
  X_test ← iloc_frame X test;
  y_train ← iloc_series y train;
  y_test ← iloc_series y test;
  mret (X_train, X_test, y_train, y_test).

(** ** The baseline for AUC-PR *)

Definition wrap64 (z : Z) : Z := (z + 2 ^ 63) mod 2 ^ 64 - 2 ^ 63.

(** [y.count()]: the number of values of a series. *)
Definition count (y : Series) : Z := Z.of_nat (col_length (s_values y)).

(** [y.sum()]: int64 sums wrap around, booleans count as 0 and 1, strings
    are concatenated, and the sum of no strings is 0. *)
Definition sum (y : Series) : scalar :=
  match s_values y with
  | Float64 xs => SFloat (foldr Rplus 0%R xs)
  | Int64 zs => SInt (wrap64 (foldr Z.add 0 zs))
  | Bool bs => SInt (wrap64 (foldr Z.add 0 (Z.b2z <$> bs)))
  | StrCol [] => SInt 0
  | StrCol ss => SStr (foldr String.append EmptyString ss)
  end.

(** [a / n] for numpy scalars, [n] an integer: a float64.  A zero divisor
    gives NaN or an infinity, not an exception. *)
Definition true_divide (a : scalar) (n : Z) : Cell scalar :=
  match to_float a with
  | None => raise TypeError
  | Some r =>
      if n =? 0 then
        mret (if bool_decide (r = 0%R) then SNaN
              else SInf (bool_decide (r < 0)%R))
      else mret (SFloat (r / IZR n))
  end.

(** Cell 33: [y_total = y_train.count(); y_positive = y_train.sum()], printed. *)
Definition count_positives (y_train : Series) : Cell (Z * scalar) :=
  let y_total := count y_train in
  let y_positive := sum y_train in
  _ ← print "The training set contains {} examples of which {} are positives."
        [SInt y_total; y_positive];
  mret (y_total, y_positive).

(** Cell 36: [auc_pr_baseline = y_positive / y_total], printed. *)
Definition baseline (y_total : Z) (y_positive : scalar) : Cell scalar :=
  auc_pr_baseline ← true_divide y_positive y_total;
  _ ← print "The baseline performance for AUC-PR is {}." [auc_pr_baseline];
  mret auc_pr_baseline.

Definition auc_pr_baseline (y_train : Series) : Cell scalar :=
  '(y_total, y_positive) ← count_positives y_train;
  baseline y_total y_positive.

(** * Specifications

    The vocabulary of the statements below: what a cell is said to do,
    what is read off a frame, and the conditions on the frames. *)

(** Total correctness: the cell returns, prints nothing, and its value
    satisfies [Q]. *)
Definition returns {A} (m : Cell A) (Q : A → Prop) : Prop := ∃ a, m = mret a ∧ Q a.

(** Partial correctness: a value the cell returns satisfies [Q]. *)
Definition ensures {A} (m : Cell A) (Q : A → Prop) : Prop := ∀ a, outcome m = inr a → Q a.

(** The cell prints nothing. *)
Definition quiet {A} (m : Cell A) : Prop := stdout m = [].

(** The values of a numeric column read as reals, the way arithmetic reads
    them; a column of strings has none. *)
Definition numeric (c : column) : option (list R) :=
  match c with
  | Float64 xs => Some xs
  | Int64 zs => Some (IZR <$> zs)
  | Bool bs => Some (b2r <$> bs)
  | StrCol _ => None
  end.

(** One assignment of the loop body: [df[key] = df[key] / n]. *)
Definition rescale (kn : string * positive) (df : DataFrame) : Cell DataFrame :=
  c ← getitem df kn.1;
  c' ← truediv c kn.2;
  mret (setitem df kn.1 c').

(** The twelve coordinate columns with their divisors, in the order the
    loops assign them. *)
Definition coordinate_keys : list (string * positive) :=
  action ← actions; side ← sides;
  [(key_x action side, 105%positive); (key_y action side, 68%positive)].

Definition scaled (n : positive) (xs : list R) : column :=
  Float64 ((λ x, x / IZR (Zpos n))%R <$> xs).

(** The number a frame holds in a column at a row. *)
Definition value (df : DataFrame) (key : string) (i : nat) : option R :=
  xs ← columns df !! key ≫= numeric; xs !! i.

(** The twelve coordinate columns are there and hold numbers. *)
Definition numeric_coordinates (df : DataFrame) : Prop :=
  ∀ action side, action ∈ actions → side ∈ sides →
    is_Some (columns df !! key_x action side ≫= numeric) ∧
    is_Some (columns df !! key_y action side ≫= numeric).

(** Every coordinate of record [i] lies in [[0, w]] (the x's) or [[0, h]]
    (the y's), for each of the three actions and both ends. *)
Definition coordinates_within (w h : R) (df : DataFrame) (i : nat) : Prop :=
  ∀ action side, action ∈ actions → side ∈ sides →
    ∃ x y,
      value df (key_x action side) i = Some x ∧
      value df (key_y action side) i = Some y ∧
      (0 <= x <= w)%R ∧ (0 <= y <= h)%R.

(** Every coordinate of [df'] is the coordinate of [df] at the same place,
    divided by 105 if it is an x and by 68 if it is a y. *)
Definition divided (df df' : DataFrame) : Prop :=
  ∀ action side i, action ∈ actions → side ∈ sides →
    value df' (key_x action side) i
      = (λ x, x / 105)%R <$> value df (key_x action side) i ∧
    value df' (key_y action side) i
      = (λ y, y / 68)%R <$> value df (key_y action side) i.

(** Some coordinate of some record is not zero. *)
Definition nonzero_coordinate (df : DataFrame) : Prop :=
  ∃ action side i x,
    action ∈ actions ∧ side ∈ sides ∧ x ≠ 0%R ∧
    (value df (key_x action side) i = Some x ∨
     value df (key_y action side) i = Some x).

(** The distance [euclidean] computes between a point and [goal]. *)
Definition to_goal (x y : R) : R :=
  sqrt ((x - 1) * (x - 1) + (y - 0.5) * (y - 0.5)).

(** The function the distance loop applies to every row. *)
Definition row_distance (key_start_x key_start_y : string)
    (s : gmap string scalar) : Cell R :=
  x ← getitem_row s key_start_x;
  y ← getitem_row s key_start_y;
  euclidean (x, y) goal.

(** The distances of all rows, from the columns [kx] and [ky] of a frame. *)
Definition distances (df : DataFrame) (kx ky : string) : list R :=
  (λ i, to_goal (default 0%R (value df kx i)) (default 0%R (value df ky i)))
    <$> seq 0 (nrows df).

(** The start columns of the three actions hold a number in every row. *)
Definition numeric_starts (df : DataFrame) : Prop :=
  ∀ action i, action ∈ actions → (i < nrows df)%nat →
    is_Some (value df (action +:+ "_start_x") i) ∧
    is_Some (value df (action +:+ "_start_y") i).

(** The integer code and the boolean flag a frame holds at a row. *)
Definition code (df : DataFrame) (key : string) (i : nat) : option Z :=
  match columns df !! key with
  | Some (Int64 zs) => zs !! i
  | _ => None
  end.

Definition flag (df : DataFrame) (key : string) (i : nat) : option bool :=
  match columns df !! key with
  | Some (Bool bs) => bs !! i
  | _ => None
  end.

(** The three body-part columns are there. *)
Definition has_body_parts (df : DataFrame) : Prop :=
  ∀ action, action ∈ actions →
    is_Some (columns df !! (action +:+ "_body_part_id")).

(** The columns the distance loop and the body-part loop assign. *)
Definition distance_keys : list string :=
  (λ action, action +:+ "_start_distance") <$> actions.

Definition indicator_keys : list string :=
  action ← actions;
  [action +:+ "_is_foot"; action +:+ "_is_head"; action +:+ "_is_other"].

(** [df'] has the rows of [df] and, outside [written], its columns. *)
Definition same_except (written : list string) (df df' : DataFrame) : Prop :=
  nrows df' = nrows df ∧
  ∀ key, key ∉ written → columns df' !! key = columns df !! key.

(** Two cells print the same, raise the same, or return related values. *)
Definition cell_rel {A B} (R : A → B → Prop) (m1 : Cell A) (m2 : Cell B) : Prop :=
  stdout m1 = stdout m2 ∧
  match outcome m1, outcome m2 with
  | inl e1, inl e2 => e1 = e2
  | inr a, inr b => R a b
  | _, _ => False
  end.

(** Two frames have the same rows and the same column names, and the columns
    of each name are related by [Q]. *)
Definition related (Q : string → column → column → Prop)
    (df1 df2 : DataFrame) : Prop :=
  nrows df1 = nrows df2 ∧
  ∀ key, option_Forall2 (Q key) (columns df1 !! key) (columns df2 !! key).

(** A column name under which related frames hold the same column. *)
Definition public (Q : string → column → column → Prop) (key : string) : Prop :=
  ∀ c1 c2, Q key c1 c2 ↔ c1 = c2.

Definition end_keys : list string :=
  action ← actions; [key_x action "end"; key_y action "end"].

(** Under an end_x or end_y name the two columns hold numbers, any numbers;
    under every other name they are the same column. *)
Definition any_numbers_at_end (key : string) (c1 c2 : column) : Prop :=
  if decide (key ∈ end_keys)
  then is_Some (numeric c1) ∧ is_Some (numeric c2)
  else c1 = c2.

Definition differ_only_at_end : DataFrame → DataFrame → Prop :=
  related any_numbers_at_end.

(** What the preparation needs of the loaded frame: numeric coordinates, in
    every row for the start locations, the body-part codes, and the labels. *)
Definition valid_shots (df : DataFrame) : Prop :=
  numeric_coordinates df ∧ numeric_starts df ∧ has_body_parts df ∧
  is_Some (columns df !! column_target).







(** The values of [xs] at the positions [rows], in the order of [rows]. *)
Fixpoint pick {A} (xs : list A) (rows : list nat) : list A :=
  match rows with
  | [] => []
  | i :: rows' =>
      match xs !! i with
      | Some x => x :: pick xs rows'
      | None => pick xs rows'
      end
  end.

Definition pick_column (c : column) (rows : list nat) : column :=
  match c with
  | Float64 xs => Float64 (pick xs rows)
  | Int64 zs => Int64 (pick zs rows)
  | Bool bs => Bool (pick bs rows)
  | StrCol ss => StrCol (pick ss rows)
  end.

Definition pick_frame (X : Frame) (rows : list nat) : Frame :=
  {| f_index := pick (f_index X) rows;
     f_columns := (λ kc : string * column, (kc.1, pick_column kc.2 rows))
                    <$> f_columns X |}.

Definition pick_series (y : Series) (rows : list nat) : Series :=
  {| s_index := pick (s_index y) rows;
     s_values := pick_column (s_values y) rows |}.

(** The row of a frame at a position: its named values. *)
Definition row_at (X : Frame) (j : nat) : list (string * option scalar) :=
  (λ kc : string * column, (kc.1, cell kc.2 j)) <$> f_columns X.

(** [X] and [y] describe the same rows: the same labels, none of them
    twice, and a value in every column for each. *)
Definition dataset (X : Frame) (y : Series) : Prop :=
  s_index y = f_index X ∧ NoDup (f_index X) ∧
  col_length (s_values y) = length (f_index X) ∧
  Forall (λ kc : string * column, col_length kc.2 = length (f_index X))
    (f_columns X).

(** The number of test rows: [ceil(test_size * n)]. *)
Definition n_test_of (test_size : Q) (n : nat) : nat :=
  Z.to_nat (Qceiling (test_size * inject_Z (Z.of_nat n))).

(** [X'] and [y'] hold rows of [X] and [y], the same ones at the same
    positions: row [j] of [X'] and value [j] of [y'] are one row of the
    source, under its label. *)
Definition corresponds (X : Frame) (y : Series) (X' : Frame) (y' : Series) : Prop :=
  s_index y' = f_index X' ∧
  ∀ j, (j < length (f_index X'))%nat →
    ∃ p, (p < length (f_index X))%nat ∧
      f_index X' !! j = f_index X !! p ∧
      row_at X' j = row_at X p ∧
      cell (s_values y') j = cell (s_values y) p.

(** The four parts of a split partition the rows of [X] and [y]. *)
Definition partitions (X : Frame) (y : Series)
    (X_train X_test : Frame) (y_train y_test : Series) : Prop :=
  (length (f_index X_train) + length (f_index X_test))%nat = length (f_index X) ∧
  (∀ i, i ∈ f_index X_train → i ∉ f_index X_test) ∧
  (∀ i, i ∈ f_index X → i ∈ f_index X_train ∨ i ∈ f_index X_test) ∧
  corresponds X y X_train y_train ∧
  corresponds X y X_test y_test.

(** The labels are 0 or 1, and the number of goals among them. *)
Definition binary_labels (labels : list Z) : Prop :=
  Forall (λ z, z = 0 ∨ z = 1) labels.

Definition positives (labels : list Z) : nat :=
  length (filter (λ z, z = 1) labels).

(** positives / size, as the float the division gives. *)
Definition positive_ratio (labels : list Z) : R :=
  (IZR (Z.of_nat (positives labels)) / IZR (Z.of_nat (length labels)))%R.

(** The coordinate columns that are there hold numbers; one of them is not
    there; all of them are there; one of them holds strings. *)
Definition numeric_where_present (df : DataFrame) : Prop :=
  ∀ key, key ∈ coordinate_keys.*1 →
    columns df !! key = None ∨ is_Some (columns df !! key ≫= numeric).

Definition missing_coordinate (df : DataFrame) : Prop :=
  ∃ key, key ∈ coordinate_keys.*1 ∧ columns df !! key = None.

Definition coordinates_present (df : DataFrame) : Prop :=
  ∀ key, key ∈ coordinate_keys.*1 → is_Some (columns df !! key).

Definition string_coordinate (df : DataFrame) : Prop :=
  ∃ key s ss, key ∈ coordinate_keys.*1 ∧
    columns df !! key = Some (StrCol (s :: ss)).

(** [df'] is a frame of as many rows as [df], with one value per row in
    every column. *)
Definition same_shape (df df' : DataFrame) : Prop :=
  well_formed df' ∧ nrows df' = nrows df.

(** The columns the distance cell reads, and the columns the selection
    reads. *)
Definition start_keys : list string :=
  action ← actions; [action +:+ "_start_x"; action +:+ "_start_y"].

Definition selected_keys : list string := columns_features ++ [column_target].




(** The eight columns of the loaded frame whose values reach [X] and [y]:
    the start locations of the three actions, the body part of the shot,
    and the label. *)
Definition input_keys : list string :=
  start_keys ++ ["action_body_part_id"; column_target].

(** Under an input name, and under the name of a feature, the two columns
    are the same; under an end_x or end_y name both hold numbers, any
    numbers; under every other name they are any two columns. *)
Definition same_input (key : string) (c1 c2 : column) : Prop :=
  if decide (key ∈ input_keys ++ columns_features) then c1 = c2
  else if decide (key ∈ end_keys) then is_Some (numeric c1) ∧ is_Some (numeric c2)
  else True.

Definition same_inputs : DataFrame → DataFrame → Prop := related same_input.

(** * Datasets to run the cells on *)

(** The columns the notebook documents for one action slot. *)
Definition action_columns (action : string)
    (team_id player_id period type_id body_part_id result : list Z)
    (seconds start_x start_y end_x end_y : list R)
    (type_name : list string) : list (string * column) :=
  [ (action +:+ "_team_id", Int64 team_id);
    (action +:+ "_player_id", Int64 player_id);
    (action +:+ "_period", Int64 period);
    (action +:+ "_seconds", Float64 seconds);
    (action +:+ "_type_id", Int64 type_id);
    (action +:+ "_type_name", StrCol type_name);
    (action +:+ "_body_part_id", Int64 body_part_id);
    (action +:+ "_result", Int64 result);
    (action +:+ "_start_x", Float64 start_x);
    (action +:+ "_start_y", Float64 start_y);
    (action +:+ "_end_x", Float64 end_x);
    (action +:+ "_end_y", Float64 end_y) ].

(** Two shots: a goal with the foot after a cross and a pass, and a header
    from the goal line that misses after a corner. *)
Definition two_shots : DataFrame :=
  {| nrows := 2;
     columns := list_to_map
       ([("game_id", Int64 [1; 1])]
        ++ action_columns "action"
             [10; 20] [7; 9] [1; 2] [11; 11] [0; 1] [1; 0]
             [600; 1500]%R [94.5; 105]%R [34; 17]%R [105; 105]%R [34; 68]%R
             ["shot"; "shot"]
        ++ action_columns "action1"
             [10; 20] [8; 4] [1; 2] [1; 5] [0; 0] [1; 1]
             [598; 1497]%R [84; 105]%R [68; 0]%R [94.5; 105]%R [34; 17]%R
             ["cross"; "corner crossed"]
        ++ action_columns "action2"
             [10; 10] [6; 3] [1; 2] [0; 9] [0; 2] [1; 1]
             [595; 1460]%R [52.5; 100]%R [51; 4]%R [84; 105]%R [68; 0]%R
             ["pass"; "tackle"]) |}.

(** A frame with coordinates off the pitch: the first shot starts at
    x = 210, the second at x = -5. *)
Definition off_pitch : DataFrame :=
  setitem two_shots "action_start_x" (Float64 [210; -5]%R).


(** [two_shots] with other end locations for the shot and the action
    before it. *)
Definition moved_ends : DataFrame :=
  setitem (setitem two_shots "action_end_x" (Float64 [0; 52.5]%R))
    "action1_end_y" (Float64 [-3; 1000]%R).



(** A hundred rows, numbered, with one feature and a goal every tenth row;
    and a shuffle of them, the last row first. *)
Definition hundred_X : Frame :=
  {| f_index := seq 0 100;
     f_columns := [("action_start_x", Int64 (Z.of_nat <$> seq 0 100))] |}.

Definition hundred_y : Series :=
  {| s_index := seq 0 100;
     s_values := Int64 ((λ i, if (i mod 10 =? 0)%nat then 1 else 0) <$> seq 0 100) |}.

(** A thousand shots with goal rate 0.10: the goals are the rows 50 to 149. *)
Definition thousand_labels : list Z :=
  replicate 50 0 ++ replicate 100 1 ++ replicate 850 0.

Definition thousand_X : Frame :=
  {| f_index := seq 0 1000;
     f_columns := [("action_is_foot", Bool (replicate 1000 true))] |}.

Definition thousand_y : Series :=
  {| s_index := seq 0 1000; s_values := Int64 thousand_labels |}.

(** [two_shots] without the column 'action2_end_y', and with names where the
    numbers of 'action1_end_x' should be. *)
Definition no_end_y : DataFrame :=
  {| nrows := 2; columns := delete "action2_end_y" (columns two_shots) |}.

Definition named_ends : DataFrame :=
  setitem two_shots "action1_end_x" (StrCol ["left"; "right"]).

(** [two_shots] without the column 'action1_start_y'. *)
Definition no_start_y : DataFrame :=
  {| nrows := 2; columns := delete "action1_start_y" (columns two_shots) |}.

(** The shots of [two_shots] in another match, with another body part for
    the action before the shot and another end of the action before that. *)
Definition other_match : DataFrame :=
  setitem (setitem (setitem two_shots "game_id" (Int64 [7; 8]))
    "action1_body_part_id" (Int64 [2; 2]))
    "action2_end_x" (Float64 [1; 2]%R).

(** * Reasoning about cells *)

Section cell_logic.
Context {A B : Type}.
Implicit Types (m : Cell A) (f g : A → Cell B).

Lemma bind_mret_l (a : A) f : mret a ≫= f = f a.
Proof. unfold mbind, mret, cell_bind, cell_ret. by destruct (f a). Qed.

Lemma bind_raise (e : exn) f : raise e ≫= f = raise e.
Proof. done. Qed.

Lemma bind_ext m f g : (∀ a, f a = g a) → m ≫= f = m ≫= g.
Proof.
  intros Hfg. destruct m as [o [e|a]]; [done|].
  unfold mbind, cell_bind. by rewrite Hfg.
Qed.

Lemma returns_mret a (Q : A → Prop) : Q a → returns (mret a) Q.
Proof. by exists a. Qed.

Lemma returns_weaken m (P Q : A → Prop) :
  returns m P → (∀ a, P a → Q a) → returns m Q.
Proof. intros (a & -> & HP) HPQ. exists a. auto. Qed.

Lemma returns_ensures m (P Q : A → Prop) :
  returns m P → ensures m Q → returns m (λ a, P a ∧ Q a).
Proof. intros (a & -> & HP) HQ. exists a. split_and!; auto. Qed.

Lemma returns_quiet m (Q : A → Prop) : returns m Q → quiet m.
Proof. by intros (a & -> & _). Qed.

Lemma ensures_weaken m (P Q : A → Prop) :
  ensures m P → (∀ a, P a → Q a) → ensures m Q.
Proof. intros HP HPQ a Ha. auto. Qed.

Lemma ensures_mret a (Q : A → Prop) : Q a → ensures (mret a) Q.
Proof. intros HQ a' [= <-]. done. Qed.

Lemma ensures_raise e (Q : A → Prop) : ensures (raise e) Q.
Proof. intros a' [=]. Qed.

Lemma quiet_mret a : quiet (mret a : Cell A).
Proof. done. Qed.

Lemma quiet_raise e : quiet (raise e : Cell A).
Proof. done. Qed.
End cell_logic.

Section cell_rules.
Context {A B : Type}.
Implicit Types (m : Cell A) (f : A → Cell B).

Lemma outcome_bind m f b :
  outcome (m ≫= f) = inr b ↔ ∃ a, outcome m = inr a ∧ outcome (f a) = inr b.
Proof.
  destruct m as [o [e|a]]; cbn.
  - split; [done|]. by intros (a & [=] & _).
  - split; [by exists a|]. by intros (a' & [= <-] & ?).
Qed.

Lemma stdout_bind_inr m f a :
  outcome m = inr a → stdout (m ≫= f) = stdout m ++ stdout (f a).
Proof. destruct m as [o [e|a']]; cbn; [done|]. by intros [= ->]. Qed.

Lemma returns_bind m f (P : A → Prop) (Q : B → Prop) :
  returns m P → (∀ a, P a → returns (f a) Q) → returns (m ≫= f) Q.
Proof.
  intros (a & -> & HP) Hf. destruct (Hf a HP) as (b & Hb & HQ).
  exists b. by rewrite bind_mret_l.
Qed.

Lemma ensures_bind m f (P : A → Prop) (Q : B → Prop) :
  ensures m P → (∀ a, P a → ensures (f a) Q) → ensures (m ≫= f) Q.
Proof.
  intros Hm Hf b (a & Ha & Hb)%outcome_bind. eapply Hf; eauto.
Qed.

Lemma bind_mret_r m : m ≫= mret = m.
Proof. destruct m as [o [e|a]]; cbn; [done|]. by rewrite app_nil_r. Qed.

Lemma bind_assoc {C} m f (g : B → Cell C) :
  (m ≫= f) ≫= g = m ≫= (λ a, f a ≫= g).
Proof.
  destruct m as [o [e|a]]; cbn; [done|].
  destruct (f a) as [o' [e|b]]; cbn; [done|].
  by rewrite (assoc_L (++)).
Qed.

Lemma quiet_bind m f : quiet m → (∀ a, quiet (f a)) → quiet (m ≫= f).
Proof.
  unfold quiet. destruct m as [o [e|a]]; cbn; [done|].
  intros -> Hf. apply Hf.
Qed.
End cell_rules.

Section loops.
Context {A S : Type}.
Implicit Types (xs : list A) (body : A → S → Cell S).

Lemma for_each_ext xs body body' s :
  (∀ x s, x ∈ xs → body x s = body' x s) →
  for_each xs body s = for_each xs body' s.
Proof.
  revert s. induction xs as [|x xs IH]; intros s Hb; [done|]. cbn.
  rewrite Hb by left. apply bind_ext. intros s'. apply IH.
  intros ???. apply Hb. by right.
Qed.

Lemma for_each_app xs ys body s :
  for_each (xs ++ ys) body s = s' ← for_each xs body s; for_each ys body s'.
Proof.
  revert s. induction xs as [|x xs IH]; intros s.
  - symmetry. apply (bind_mret_l s).
  - cbn. destruct (body x s) as [o [e|s']]; [done|]. cbn. rewrite IH.
    destruct (for_each xs body s') as [o' [e|s'']]; cbn; [done|].
    by rewrite (assoc_L (++)).
Qed.

(** A loop keeps what each of its rounds keeps. *)
Lemma ensures_for_each (I : S → Prop) xs body s :
  I s → (∀ x s, x ∈ xs → I s → ensures (body x s) I) →
  ensures (for_each xs body s) I.
Proof.
  revert s. induction xs as [|x xs IH]; intros s Hs Hb.
  - by apply ensures_mret.
  - cbn. eapply ensures_bind; [apply Hb; [left|done]|].
    intros s' Hs'. apply IH; [done|]. intros ???. apply Hb. by right.
Qed.

Lemma quiet_for_each xs body s :
  (∀ x s, quiet (body x s)) → quiet (for_each xs body s).
Proof.
  intros Hb. revert s. induction xs as [|x xs IH]; intros s; [done|].
  cbn. by apply quiet_bind.
Qed.
End loops.

(** Nested loops are one loop over the pairs, in the order they are met. *)
Lemma for_each_bind {A B S} (xs : list A) (g : A → list B)
    (body : B → S → Cell S) (s : S) :
  for_each xs (λ a s, for_each (g a) body s) s = for_each (xs ≫= g) body s.
Proof.
  revert s. induction xs as [|x xs IH]; intros s; [done|]. cbn.
  rewrite for_each_app. apply bind_ext. intros s'. apply IH.
Qed.

Lemma for_each_fmap {A B S} (h : A → B) (xs : list A)
    (body : B → S → Cell S) (s : S) :
  for_each (h <$> xs) body s = for_each xs (λ a, body (h a)) s.
Proof.
  revert s. induction xs as [|x xs IH]; intros s; [done|]. cbn.
  apply bind_ext. intros s'. apply IH.
Qed.

Lemma map_cell_pure {A B} (f : A → Cell B) (g : A → B) (xs : list A) :
  (∀ x, x ∈ xs → f x = mret (g x)) → map_cell f xs = mret (g <$> xs).
Proof.
  induction xs as [|x xs IH]; intros Hf; [done|]. cbn.
  rewrite Hf by left. rewrite bind_mret_l, IH, bind_mret_l; [done|].
  intros ??. apply Hf. by right.
Qed.

(** * The normalizer *)

Lemma getitem_Some df key c : columns df !! key = Some c → getitem df key = mret c.
Proof. unfold getitem. by intros ->. Qed.

Lemma getitem_None df key : columns df !! key = None → getitem df key = raise KeyError.
Proof. unfold getitem. by intros ->. Qed.

Lemma quiet_getitem df key : quiet (getitem df key).
Proof. unfold getitem. by destruct (columns df !! key). Qed.

Lemma ensures_getitem df key :
  ensures (getitem df key) (λ c, columns df !! key = Some c).
Proof. unfold getitem. destruct (columns df !! key); by intros ? [= <-]. Qed.

Lemma truediv_numeric c n xs : numeric c = Some xs → truediv c n = mret (scaled n xs).
Proof.
  destruct c; intros [= <-]; cbn; unfold scaled; do 3 f_equal;
    by rewrite <- ?list_fmap_compose.
Qed.

Lemma quiet_truediv c n : quiet (truediv c n).
Proof. by destruct c as [| | |[|]]. Qed.

Lemma normalize_side_rescale action side df :
  normalize_side action side df
  = for_each [(key_x action side, 105%positive); (key_y action side, 68%positive)] rescale df.
Proof.
  unfold normalize_side, rescale. cbn [for_each fst snd].
  rewrite bind_assoc. apply bind_ext. intros cx.
  rewrite bind_assoc. apply bind_ext. intros cx'.
  by rewrite bind_mret_l, bind_mret_r.
Qed.

Lemma normalize_rescale df : normalize df = for_each coordinate_keys rescale df.
Proof.
  unfold normalize, coordinate_keys.
  rewrite <- for_each_bind. apply for_each_ext. intros action df' _.
  rewrite <- for_each_bind. apply for_each_ext. intros side df'' _.
  apply normalize_side_rescale.
Qed.

Lemma ensures_truediv_float c n :
  ensures (truediv c n) (λ c', col_length c' = col_length c).
Proof.
  destruct c as [| | |[|]]; intros ? [= <-]; cbn; by rewrite ?length_map.
Qed.

Lemma rescale_returns kn df xs :
  columns df !! kn.1 ≫= numeric = Some xs →
  rescale kn df = mret (setitem df kn.1 (scaled kn.2 xs)).
Proof.
  intros (c & Hc & Hxs)%bind_Some. unfold rescale.
  by rewrite (getitem_Some _ _ c), bind_mret_l,
    (truediv_numeric _ _ xs), bind_mret_l.
Qed.

Lemma quiet_rescale kn df : quiet (rescale kn df).
Proof.
  unfold rescale. apply quiet_bind; [apply quiet_getitem|]. intros c.
  apply quiet_bind; [apply quiet_truediv|]. intros c'. apply quiet_mret.
Qed.

(** One assignment leaves the other columns and the row count alone. *)
Lemma rescale_frame kn df :
  ensures (rescale kn df) (λ df',
    nrows df' = nrows df ∧
    ∀ key, key ≠ kn.1 → columns df' !! key = columns df !! key).
Proof.
  unfold rescale. eapply ensures_bind; [apply ensures_getitem|].
  intros c _. eapply ensures_bind; [apply (ensures_truediv_float c)|].
  intros c' _. apply ensures_mret. split; [done|].
  intros key Hne. cbn. by rewrite lookup_insert_ne.
Qed.

Lemma rescale_all_frame kns df :
  ensures (for_each kns rescale df) (λ df',
    nrows df' = nrows df ∧
    ∀ key, key ∉ kns.*1 → columns df' !! key = columns df !! key).
Proof.
  apply ensures_for_each; [done|].
  intros [k n] s Hkn [Hrows Hs].
  eapply ensures_weaken; [apply rescale_frame|]. intros df' [Hrows' Hdf'].
  split; [congruence|].
  intros key Hkey. rewrite Hdf', Hs; [done..|].
  intros ->. apply Hkey. by apply (list_elem_of_fmap_2 fst _ (k, n)).
Qed.

(** On numeric columns with different names the assignments all succeed,
    and each column is divided once. *)
Lemma rescale_all_returns kns df :
  NoDup kns.*1 →
  (∀ key n, (key, n) ∈ kns → is_Some (columns df !! key ≫= numeric)) →
  returns (for_each kns rescale df) (λ df',
    nrows df' = nrows df ∧
    (∀ key n, (key, n) ∈ kns →
       columns df' !! key = scaled n <$> (columns df !! key ≫= numeric)) ∧
    (∀ key, key ∉ kns.*1 → columns df' !! key = columns df !! key)).
Proof.
  revert df. induction kns as [|[k n] kns IH]; intros df Hnd Hnum.
  { apply returns_mret. split_and!; [done| |done]. by intros ?? ?%elem_of_nil. }
  apply NoDup_cons in Hnd as [Hk Hnd]. cbn [for_each].
  destruct (Hnum k n) as [xs Hxs]; [left|].
  rewrite (rescale_returns (k, n) df xs Hxs), bind_mret_l.
  eapply returns_weaken.
  { apply IH; [done|]. intros key n' Hin. cbn.
    rewrite lookup_insert_ne; [apply (Hnum key n'); by right|].
    intros <-. apply Hk. by apply (list_elem_of_fmap_2 fst _ (k, n')). }
  cbn. intros df' (Hrows & Hin & Hout). split_and!; [done| |].
  - intros key n' [[= -> ->]|Hkn]%elem_of_cons.
    + by rewrite Hout, lookup_insert_eq, Hxs.
    + rewrite (Hin key n' Hkn), lookup_insert_ne; [done|].
      intros <-. apply Hk. by apply (list_elem_of_fmap_2 fst _ (k, n')).
  - intros key [Hne Hkey]%not_elem_of_cons.
    by rewrite Hout, lookup_insert_ne.
Qed.

Lemma coordinate_keys_NoDup : NoDup coordinate_keys.*1.
Proof. apply (bool_decide_unpack _). by vm_compute. Qed.

Lemma coordinate_keys_x action side :
  action ∈ actions → side ∈ sides →
  (key_x action side, 105%positive) ∈ coordinate_keys.
Proof.
  intros Ha Hs. apply list_elem_of_bind. exists action. split; [|done].
  apply list_elem_of_bind. exists side. split; [left|done].
Qed.

Lemma coordinate_keys_y action side :
  action ∈ actions → side ∈ sides →
  (key_y action side, 68%positive) ∈ coordinate_keys.
Proof.
  intros Ha Hs. apply list_elem_of_bind. exists action. split; [|done].
  apply list_elem_of_bind. exists side. split; [right; left|done].
Qed.

Lemma coordinate_keys_inv key n :
  (key, n) ∈ coordinate_keys →
  ∃ action side, action ∈ actions ∧ side ∈ sides ∧
    ((key = key_x action side ∧ n = 105%positive) ∨
     (key = key_y action side ∧ n = 68%positive)).
Proof.
  intros (action & (side & Hk & Hs)%list_elem_of_bind & Ha)%list_elem_of_bind.
  exists action, side. split_and!; [done..|].
  apply elem_of_cons in Hk as [[= -> ->]|Hk]; [by left|].
  apply list_elem_of_singleton in Hk as [= -> ->]. by right.
Qed.

Lemma value_scaled df df' key n i :
  columns df' !! key = scaled n <$> (columns df !! key ≫= numeric) →
  value df' key i = (λ x, x / IZR (Zpos n))%R <$> value df key i.
Proof.
  unfold value. intros ->.
  destruct (columns df !! key ≫= numeric) as [xs|]; [|done]. cbn.
  by rewrite list_lookup_fmap.
Qed.

(** What the normalizer does to a frame whose coordinate columns are numbers:
    it returns, without printing, a frame with the same rows in which each
    coordinate column is divided by its divisor, once, and nothing else
    changes. *)
Lemma normalize_returns df :
  numeric_coordinates df →
  returns (normalize df) (λ df',
    nrows df' = nrows df ∧
    (∀ key n, (key, n) ∈ coordinate_keys →
       columns df' !! key = scaled n <$> (columns df !! key ≫= numeric)) ∧
    (∀ key, key ∉ coordinate_keys.*1 → columns df' !! key = columns df !! key)).
Proof.
  intros Hnum. rewrite normalize_rescale.
  apply rescale_all_returns; [apply coordinate_keys_NoDup|].
  intros key n (action & side & Ha & Hs & [[-> ->]|[-> ->]])%coordinate_keys_inv;
    by apply Hnum.
Qed.

Lemma normalize_divided df :
  numeric_coordinates df →
  ∃ df', normalize df = mret df' ∧ divided df df' ∧ numeric_coordinates df'.
Proof.
  intros Hnum. destruct (normalize_returns df Hnum) as (df' & Hrun & _ & Hin & _).
  exists df'. split_and!; [done| |].
  - intros action side i Ha Hs. split.
    + apply (value_scaled df df' _ 105), Hin. by apply coordinate_keys_x.
    + apply (value_scaled df df' _ 68), Hin. by apply coordinate_keys_y.
  - intros action side Ha Hs.
    rewrite (Hin _ _ (coordinate_keys_x _ _ Ha Hs)),
      (Hin _ _ (coordinate_keys_y _ _ Ha Hs)).
    destruct (Hnum action side Ha Hs) as [[xs ->] [ys ->]]. by eauto.
Qed.


(** * The two shots, normalized *)

(** Case analysis on a member of a list that is written out. *)
Ltac each_member H :=
  repeat (apply elem_of_cons in H as [->|H]); [..|by apply elem_of_nil in H].

Lemma two_shots_numeric : numeric_coordinates two_shots.
Proof.
  intros action side Ha Hs. each_member Ha; each_member Hs;
    split; vm_compute; eauto.
Qed.



(** The normalizer never prints, whatever it is given. *)
Lemma quiet_normalize df : quiet (normalize df).
Proof.
  rewrite normalize_rescale. apply quiet_for_each. intros. apply quiet_rescale.
Qed.

(** C6. The normalizer is not idempotent: on a frame with a nonzero
    coordinate, normalizing the normalized frame again succeeds and gives a
    frame that differs from it (the coordinate is divided a second time). *)
Theorem normalize_not_idempotent df :
  numeric_coordinates df → nonzero_coordinate df →
  ∃ df1 df2,
    normalize df = mret df1 ∧ normalize df1 = mret df2 ∧ df2 ≠ df1.
Proof.
  intros Hnum (action & side & i & x & Ha & Hs & Hx0 & Hx).
  destruct (normalize_divided df Hnum) as (df1 & Hrun1 & Hdiv1 & Hnum1).
  destruct (normalize_divided df1 Hnum1) as (df2 & Hrun2 & Hdiv2 & _).
  exists df1, df2. split_and!; [done..|]. intros ->.
  destruct (Hdiv1 action side i Ha Hs) as [H1x H1y].
  destruct (Hdiv2 action side i Ha Hs) as [H2x H2y].
  destruct Hx as [Hx|Hx]; rewrite Hx in *.
  - rewrite H1x in H2x. cbn in H2x. injection H2x as H2x. lra.
  - rewrite H1y in H2y. cbn in H2y. injection H2y as H2y. lra.
Qed.

Lemma two_shots_nonzero : nonzero_coordinate two_shots.
Proof.
  exists "action", "start", 0%nat, 94.5%R. split_and!; [by left..|lra|].
  left. vm_compute. reflexivity.
Qed.

Lemma normalize_not_idempotent_witness :
  ∃ df1 df2,
    normalize two_shots = mret df1 ∧ normalize df1 = mret df2 ∧ df2 ≠ df1.
Proof.
  exact (normalize_not_idempotent two_shots two_shots_numeric two_shots_nonzero).
Defined.

Lemma off_pitch_numeric : numeric_coordinates off_pitch.
Proof.
  intros action side Ha Hs. each_member Ha; each_member Hs;
    split; vm_compute; eauto.
Qed.

Lemma off_pitch_out_of_range i : ¬ coordinates_within 105 68 off_pitch i.
Proof.
  intros Hin. destruct (Hin "action" "start") as (x & y & Hx & _ & Hxb & _);
    [by left..|].
  destruct i as [|[|i]]; vm_compute in Hx; [| |done];
    injection Hx as <-; lra.
Qed.

(** C8 (as the code has it). Whatever numbers the coordinate columns hold,
    inside the pitch bounds or not, normalization is not fatal: it returns a
    frame in which the same divisions by 105 and 68 were applied.  Nothing is
    raised, and nothing is logged either: the cell prints nothing. *)
Theorem normalize_out_of_range df :
  numeric_coordinates df →
  stdout (normalize df) = [] ∧
  ∃ df', outcome (normalize df) = inr df' ∧ divided df df'.
Proof.
  intros Hnum. split; [apply quiet_normalize|].
  destruct (normalize_divided df Hnum) as (df' & Hrun & Hdiv & _).
  exists df'. by rewrite Hrun.
Qed.

Lemma normalize_out_of_range_witness :
  (¬ coordinates_within 105 68 off_pitch 0) ∧
  stdout (normalize off_pitch) = [] ∧
  ∃ df', outcome (normalize off_pitch) = inr df' ∧ divided off_pitch df'.
Proof.
  split; [apply off_pitch_out_of_range|].
  exact (normalize_out_of_range off_pitch off_pitch_numeric).
Defined.

(** C8 as stated fails: a record off the pitch is normalized without any
    warning being logged.  The first shot of [off_pitch] starts at x = 210;
    the normalizer returns a frame where it starts at x = 2, and its output
    is empty. *)
Lemma normalize_warns_counterexample :
  (¬ coordinates_within 105 68 off_pitch 0) ∧
  value off_pitch "action_start_x" 0 = Some 210%R ∧
  ∃ df', normalize off_pitch = ([], inr df') ∧
    value df' "action_start_x" 0 = Some 2%R.
Proof.
  split_and!; [apply off_pitch_out_of_range|vm_compute; reflexivity|].
  destruct (normalize_divided off_pitch off_pitch_numeric) as (df' & Hrun & Hdiv & _).
  exists df'. split; [done|].
  destruct (Hdiv "action" "start" 0%nat) as [Hx _]; [by left..|].
  etrans; [exact Hx|].
  replace (value off_pitch (key_x "action" "start") 0) with (Some 210%R)
    by (vm_compute; reflexivity).
  cbn. f_equal. lra.
Qed.

(** * The feature builder: distances *)

Lemma cell_to_float c i : cell c i ≫= to_float = numeric c ≫= (.!! i).
Proof.
  destruct c; cbn; rewrite ?list_lookup_fmap; by destruct (_ !! i).
Qed.

Lemma value_iloc_row df key i : value df key i = iloc_row df i !! key ≫= to_float.
Proof.
  unfold value, iloc_row. rewrite lookup_omap.
  destruct (columns df !! key) as [c|]; [|done]. cbn. by rewrite cell_to_float.
Qed.

Lemma lookup_setitem_eq df k c : columns (setitem df k c) !! k = Some c.
Proof. apply lookup_insert_eq. Qed.

Lemma lookup_setitem_ne df k c key :
  key ≠ k → columns (setitem df k c) !! key = columns df !! key.
Proof. intros. by apply lookup_insert_ne. Qed.

Lemma value_setitem_ne df k c key i :
  key ≠ k → value (setitem df k c) key i = value df key i.
Proof. intros Hne. unfold value. cbn. by rewrite lookup_insert_ne. Qed.

Lemma value_setitem_eq df k xs i : value (setitem df k (Float64 xs)) k i = xs !! i.
Proof. unfold value. cbn. by rewrite lookup_insert_eq. Qed.

Lemma row_distance_returns df kx ky i x y :
  value df kx i = Some x → value df ky i = Some y →
  row_distance kx ky (iloc_row df i) = mret (to_goal x y).
Proof.
  rewrite !value_iloc_row. unfold row_distance, getitem_row.
  intros (vx & -> & Hx)%bind_Some (vy & -> & Hy)%bind_Some.
  rewrite !bind_mret_l. unfold euclidean. cbn [fst snd]. by rewrite Hx, Hy.
Qed.


Lemma distances_ext df df' kx ky :
  nrows df' = nrows df →
  (∀ i, value df' kx i = value df kx i) →
  (∀ i, value df' ky i = value df ky i) →
  distances df' kx ky = distances df kx ky.
Proof.
  intros Hrows Hx Hy. unfold distances. rewrite Hrows.
  apply list_fmap_ext. intros _ i _. by rewrite Hx, Hy.
Qed.

Lemma start_distance_returns action df :
  (∀ i, (i < nrows df)%nat →
     is_Some (value df (action +:+ "_start_x") i) ∧
     is_Some (value df (action +:+ "_start_y") i)) →
  start_distance action df
  = mret (setitem df (action +:+ "_start_distance")
            (Float64 (distances df (action +:+ "_start_x") (action +:+ "_start_y")))).
Proof.
  intros Hnum. unfold start_distance, apply_rows.
  rewrite (map_cell_pure _
    (λ i, to_goal (default 0%R (value df (action +:+ "_start_x") i))
                  (default 0%R (value df (action +:+ "_start_y") i)))).
  { by rewrite !bind_mret_l. }
  intros i [_ Hi]%elem_of_seq.
  destruct (Hnum i Hi) as [[x Hx] [y Hy]].
  rewrite Hx, Hy. by apply row_distance_returns.
Qed.

(** The frame the distance loop returns: three new columns, computed from
    the start columns the frame came with. *)
Lemma compute_distances_returns df :
  numeric_starts df →
  returns (compute_distances df) (λ df',
    nrows df' = nrows df ∧
    (∀ action, action ∈ actions →
       columns df' !! (action +:+ "_start_distance")
       = Some (Float64 (distances df (action +:+ "_start_x")
                                     (action +:+ "_start_y"))))).
Proof.
  intros Hnum. unfold compute_distances, actions. cbn [for_each].
  rewrite start_distance_returns, bind_mret_l by (intros; apply Hnum; [by left|done]).
  set (df1 := setitem df _ _).
  assert (∀ key i, key ≠ "action" +:+ "_start_distance" →
    value df1 key i = value df key i) as H1
    by (intros; by apply value_setitem_ne).
  rewrite start_distance_returns, bind_mret_l.
  2:{ intros i Hi. rewrite !H1 by done. apply Hnum; [by right; left|done]. }
  set (df2 := setitem df1 _ _).
  assert (∀ key i, key ≠ "action" +:+ "_start_distance" →
    key ≠ "action1" +:+ "_start_distance" →
    value df2 key i = value df key i) as H2.
  { intros. unfold df2. rewrite value_setitem_ne by done. by apply H1. }
  rewrite start_distance_returns, bind_mret_l.
  2:{ intros i Hi. rewrite !H2 by done. apply Hnum; [by right; right; left|done]. }
  apply returns_mret. split; [done|].
  intros action Ha. each_member Ha.
  - rewrite lookup_setitem_ne by done. unfold df2.
    rewrite lookup_setitem_ne by done. apply lookup_setitem_eq.
  - rewrite lookup_setitem_ne by done. unfold df2.
    rewrite lookup_setitem_eq. do 2 f_equal.
    apply distances_ext; [done|intros; by apply H1..].
  - rewrite lookup_setitem_eq. do 2 f_equal.
    apply distances_ext; [done|intros; by apply H2..].
Qed.







(** * The feature builder: body-part indicators *)

(** Rewrites a lookup through the assignments made so far. *)
Ltac lookup_setitem :=
  repeat first
    [ rewrite lookup_setitem_eq
    | rewrite lookup_setitem_ne by done ].

Lemma body_part_returns action df c :
  action ∈ actions →
  columns df !! (action +:+ "_body_part_id") = Some c →
  body_part action df
  = mret (setitem (setitem (setitem df
            (action +:+ "_is_foot") (eq_scalar c 0))
            (action +:+ "_is_head") (eq_scalar c 1))
            (action +:+ "_is_other") (eq_scalar c 2)).
Proof.
  intros Ha Hc. unfold body_part.
  rewrite (getitem_Some _ _ c), bind_mret_l by done. cbn zeta.
  rewrite (getitem_Some _ _ c), bind_mret_l
    by (each_member Ha; by lookup_setitem). cbn zeta.
  rewrite (getitem_Some _ _ c), bind_mret_l
    by (each_member Ha; by lookup_setitem).
  done.
Qed.

Lemma determine_body_part_returns df :
  has_body_parts df →
  returns (determine_body_part df) (λ df',
    nrows df' = nrows df ∧
    ∀ action c, action ∈ actions →
      columns df !! (action +:+ "_body_part_id") = Some c →
      columns df' !! (action +:+ "_is_foot") = Some (eq_scalar c 0) ∧
      columns df' !! (action +:+ "_is_head") = Some (eq_scalar c 1) ∧
      columns df' !! (action +:+ "_is_other") = Some (eq_scalar c 2)).
Proof.
  intros Hbp. unfold determine_body_part, actions. cbn [for_each].
  destruct (Hbp "action") as [c0 Hc0]; [by left|].
  destruct (Hbp "action1") as [c1 Hc1]; [by right; left|].
  destruct (Hbp "action2") as [c2 Hc2]; [by right; right; left|].
  rewrite (body_part_returns "action" _ c0), bind_mret_l by (done || by left).
  rewrite (body_part_returns "action1" _ c1), bind_mret_l
    by ((by right; left) || by lookup_setitem).
  rewrite (body_part_returns "action2" _ c2), bind_mret_l
    by ((by right; right; left) || by lookup_setitem).
  apply returns_mret. split; [done|].
  intros action c Ha Hc. each_member Ha;
    rewrite ?Hc0, ?Hc1, ?Hc2 in Hc; injection Hc as <-;
    split_and!; by lookup_setitem.
Qed.

Lemma flag_eq_scalar df' key codes k i :
  columns df' !! key = Some (eq_scalar (Int64 codes) k) →
  flag df' key i = (λ z, z =? k) <$> codes !! i.
Proof. unfold flag. intros ->. cbn. apply list_lookup_fmap. Qed.

(** C2. After the body-part loop, for every record and each of the three
    action slots, is_foot, is_head and is_other are the comparisons of the
    body-part code with 0, 1 and 2; exactly one of them is true when the code
    is 0, 1 or 2, and all three are false for any other code. *)
Theorem body_part_indicators df :
  has_body_parts df →
  ∃ df', determine_body_part df = mret df' ∧
    ∀ action i z, action ∈ actions →
      code df (action +:+ "_body_part_id") i = Some z →
      ∃ is_foot is_head is_other,
        flag df' (action +:+ "_is_foot") i = Some is_foot ∧
        flag df' (action +:+ "_is_head") i = Some is_head ∧
        flag df' (action +:+ "_is_other") i = Some is_other ∧
        is_foot = (z =? 0) ∧ is_head = (z =? 1) ∧ is_other = (z =? 2) ∧
        (0 ≤ z ≤ 2 → Z.b2z is_foot + Z.b2z is_head + Z.b2z is_other = 1) ∧
        (¬ 0 ≤ z ≤ 2 → is_foot = false ∧ is_head = false ∧ is_other = false).
Proof.
  intros Hbp. destruct (determine_body_part_returns df Hbp) as (df' & Hrun & _ & Hcol).
  exists df'. split; [done|]. intros action i z Ha Hz. unfold code in Hz.
  destruct (columns df !! _) as [[|codes| |]|] eqn:Hc; try done.
  destruct (Hcol action _ Ha Hc) as (Hfoot & Hhead & Hother).
  exists (z =? 0), (z =? 1), (z =? 2).
  rewrite (flag_eq_scalar _ _ _ _ i Hfoot), (flag_eq_scalar _ _ _ _ i Hhead),
    (flag_eq_scalar _ _ _ _ i Hother), Hz.
  split_and!; try done.
  - intros Hz012.
    destruct (Z.eqb_spec z 0), (Z.eqb_spec z 1), (Z.eqb_spec z 2); cbn; lia.
  - intros Hz012. split_and!; apply Z.eqb_neq; lia.
Qed.

Lemma two_shots_body_parts : has_body_parts two_shots.
Proof. intros action Ha. each_member Ha; vm_compute; eauto. Qed.

Lemma body_part_indicators_witness :
  ∃ df', determine_body_part two_shots = mret df' ∧
    flag df' "action_is_foot" 0 = Some true ∧
    flag df' "action_is_head" 0 = Some false ∧
    flag df' "action_is_other" 0 = Some false ∧
    flag df' "action2_is_other" 1 = Some true.
Proof.
  destruct (body_part_indicators two_shots two_shots_body_parts) as (df' & Hrun & Hd).
  exists df'. split; [done|].
  destruct (Hd "action" 0%nat 0) as (f & h & o & Hf & Hh & Ho & -> & -> & -> & _);
    [by left|vm_compute; reflexivity|].
  destruct (Hd "action2" 1%nat 2) as (f & h & o & _ & _ & Ho2 & _ & _ & -> & _);
    [by right; right; left|vm_compute; reflexivity|].
  split_and!; [exact Hf|exact Hh|exact Ho|exact Ho2].
Defined.

(** * What each step writes *)

Lemma same_except_refl written df : same_except written df df.
Proof. done. Qed.

Lemma same_except_setitem written df df' key c :
  key ∈ written → same_except written df df' →
  same_except written df (setitem df' key c).
Proof.
  intros Hkey [Hrows Hcols]. split; [done|]. intros key' Hkey'.
  rewrite lookup_setitem_ne by (by intros ->). by apply Hcols.
Qed.

Lemma normalize_frame df :
  ensures (normalize df) (same_except coordinate_keys.*1 df).
Proof. rewrite normalize_rescale. apply rescale_all_frame. Qed.

Lemma start_distance_frame written action df0 df :
  action +:+ "_start_distance" ∈ written → same_except written df0 df →
  ensures (start_distance action df) (same_except written df0).
Proof.
  intros Hkey Hdf. unfold start_distance.
  eapply ensures_bind with (P := λ _, True); [done|]. intros d _.
  apply ensures_mret. by apply same_except_setitem.
Qed.

Lemma compute_distances_frame df :
  ensures (compute_distances df) (same_except distance_keys df).
Proof.
  apply ensures_for_each; [done|]. intros action df' Ha Hdf'.
  apply start_distance_frame; [|done].
  by apply (list_elem_of_fmap_2 (λ a, a +:+ "_start_distance") actions).
Qed.

Lemma body_part_frame written action df0 df :
  action +:+ "_is_foot" ∈ written → action +:+ "_is_head" ∈ written →
  action +:+ "_is_other" ∈ written → same_except written df0 df →
  ensures (body_part action df) (same_except written df0).
Proof.
  intros Hfoot Hhead Hother Hdf. unfold body_part.
  eapply ensures_bind with (P := λ _, True); [done|]. intros c0 _. cbn zeta.
  eapply ensures_bind with (P := λ _, True); [done|]. intros c1 _. cbn zeta.
  eapply ensures_bind with (P := λ _, True); [done|]. intros c2 _.
  apply ensures_mret. by repeat (apply same_except_setitem; [done|]).
Qed.

Lemma determine_body_part_frame df :
  ensures (determine_body_part df) (same_except indicator_keys df).
Proof.
  apply ensures_for_each; [done|]. intros action df' Ha Hdf'.
  apply body_part_frame; [..|done];
    (apply list_elem_of_bind; exists action; split; [|done]).
  - by left.
  - by right; left.
  - by right; right; left.
Qed.

Lemma map_cell_outcome {A B} (f : A → Cell B) xs ys :
  outcome (map_cell f xs) = inr ys →
  Forall2 (λ x y, outcome (f x) = inr y) xs ys.
Proof.
  revert ys. induction xs as [|x xs IH]; intros ys; cbn [map_cell].
  - intros [= <-]. constructor.
  - intros (y & Hy & (ys' & Hys' & [= <-])%outcome_bind)%outcome_bind.
    constructor; [done|]. by apply IH.
Qed.

(** The selection copies columns of the frame, unchanged, under their names. *)
Lemma construct_dataset_reads df X y :
  outcome (construct_dataset df) = inr (X, y) →
  f_index X = seq 0 (nrows df) ∧ s_index y = seq 0 (nrows df) ∧
  (f_columns X).*1 = columns_features ∧
  (∀ key c, (key, c) ∈ f_columns X → columns df !! key = Some c) ∧
  columns df !! column_target = Some (s_values y).
Proof.
  unfold construct_dataset, getitem_list, getitem_series.
  intros (X' & (cs & Hcs%map_cell_outcome & [= <-])%outcome_bind
             & (y' & (cy & Hcy%ensures_getitem & [= <-])%outcome_bind
                & [= <- <-])%outcome_bind)%outcome_bind.
  cbn. split_and!; [done..| | |done].
  - clear Hcy. induction Hcs as [|key [key' c'] keys cs Hkc _ IH]; [done|].
    apply outcome_bind in Hkc as (c'' & _ & [= <- <-]). cbn. by f_equal.
  - intros key c Hin. clear Hcy. induction Hcs as [|key0 kc keys cs Hkc _ IH].
    { by apply elem_of_nil in Hin. }
    apply elem_of_cons in Hin as [<-|Hin]; [|by apply IH].
    by apply outcome_bind in Hkc as (c'' & Hc''%ensures_getitem & [= <- <-]).
Qed.

(** C7 as stated fails: normalization overwrites loaded values.  The second
    shot of [two_shots] starts at x = 105 when loaded and at x = 1 after the
    normalizer ran, in the same column of the same frame. *)
Lemma normalize_mutates_counterexample :
  ∃ df', normalize two_shots = mret df' ∧
    value two_shots "action_start_x" 1 = Some 105%R ∧
    value df' "action_start_x" 1 = Some 1%R.
Proof.
  destruct (normalize_divided two_shots two_shots_numeric) as (df' & Hrun & Hdiv & _).
  exists df'. split_and!; [done|vm_compute; reflexivity|].
  destruct (Hdiv "action" "start" 1%nat) as [Hx _]; [by left..|].
  etrans; [exact Hx|].
  replace (value two_shots (key_x "action" "start") 1) with (Some 105%R)
    by (vm_compute; reflexivity).
  cbn. f_equal. lra.
Qed.

(** C7 (as the code has it). The normalizer overwrites the twelve coordinate
    columns of the loaded frame and keeps every other column and the rows;
    the distance loop writes the three start_distance columns and keeps every
    other column; the body-part loop writes the nine indicator columns and
    keeps every other column; the selection of [X] and [y] copies columns of
    the frame as they are. *)
Theorem source_columns_kept :
  (∀ df df', outcome (normalize df) = inr df' →
     same_except coordinate_keys.*1 df df') ∧
  (∀ df df', outcome (compute_distances df) = inr df' →
     same_except distance_keys df df') ∧
  (∀ df df', outcome (determine_body_part df) = inr df' →
     same_except indicator_keys df df') ∧
  (∀ df X y, outcome (construct_dataset df) = inr (X, y) →
     (∀ key c, (key, c) ∈ f_columns X → columns df !! key = Some c) ∧
     columns df !! column_target = Some (s_values y)) ∧
  coordinate_keys.*1
  = [ "action_start_x"; "action_start_y"; "action_end_x"; "action_end_y";
      "action1_start_x"; "action1_start_y"; "action1_end_x"; "action1_end_y";
      "action2_start_x"; "action2_start_y"; "action2_end_x"; "action2_end_y" ] ∧
  distance_keys
  = [ "action_start_distance"; "action1_start_distance";
      "action2_start_distance" ] ∧
  indicator_keys
  = [ "action_is_foot"; "action_is_head"; "action_is_other";
      "action1_is_foot"; "action1_is_head"; "action1_is_other";
      "action2_is_foot"; "action2_is_head"; "action2_is_other" ].
Proof.
  split_and!; [| | | |done..].
  - intros df df'. apply normalize_frame.
  - intros df df'. apply compute_distances_frame.
  - intros df df'. apply determine_body_part_frame.
  - intros df X y Hrun.
    by destruct (construct_dataset_reads df X y Hrun) as (_ & _ & _ & ? & ?).
Qed.

(** * Two runs side by side *)

Section two_runs.
Context {A B : Type}.

Lemma rel_mret (R : A → B → Prop) a b : R a b → cell_rel R (mret a) (mret b).
Proof. done. Qed.

Lemma rel_raise (R : A → B → Prop) e : cell_rel R (raise e) (raise e).
Proof. done. Qed.

Lemma rel_weaken (R R' : A → B → Prop) m1 m2 :
  cell_rel R m1 m2 → (∀ a b, R a b → R' a b) → cell_rel R' m1 m2.
Proof.
  intros [Ho Hr] HR. split; [done|].
  destruct (outcome m1), (outcome m2); auto.
Qed.
End two_runs.

Lemma rel_eq {A} (m1 m2 : Cell A) : cell_rel eq m1 m2 ↔ m1 = m2.
Proof.
  split; [|intros ->; split; [done|]; by destruct (outcome m2)].
  unfold cell_rel, stdout, outcome.
  destruct m1 as [o1 [e1|a1]], m2 as [o2 [e2|a2]]; cbn; intros [-> H];
    by rewrite ?H.
Qed.

Lemma rel_bind {A1 A2 B1 B2} (P : A1 → A2 → Prop) (Q : B1 → B2 → Prop)
    (m1 : Cell A1) (m2 : Cell A2) (f1 : A1 → Cell B1) (f2 : A2 → Cell B2) :
  cell_rel P m1 m2 → (∀ a1 a2, P a1 a2 → cell_rel Q (f1 a1) (f2 a2)) →
  cell_rel Q (m1 ≫= f1) (m2 ≫= f2).
Proof.
  unfold cell_rel, stdout, outcome.
  destruct m1 as [o1 [e1|a1]], m2 as [o2 [e2|a2]]; cbn; intros [-> H] Hf;
    try done.
  destruct (Hf a1 a2 H) as [Ho Hr]. split; [|done]. by rewrite Ho.
Qed.

Lemma rel_for_each {A S1 S2} (R : S1 → S2 → Prop) (xs : list A)
    (body1 : A → S1 → Cell S1) (body2 : A → S2 → Cell S2) s1 s2 :
  R s1 s2 →
  (∀ x s1 s2, x ∈ xs → R s1 s2 → cell_rel R (body1 x s1) (body2 x s2)) →
  cell_rel R (for_each xs body1 s1) (for_each xs body2 s2).
Proof.
  revert s1 s2. induction xs as [|x xs IH]; intros s1 s2 Hs Hb.
  - by apply rel_mret.
  - cbn [for_each]. eapply rel_bind; [apply Hb; [left|done]|].
    intros s1' s2' Hs'. apply IH; [done|]. intros ?????. apply Hb; [by right|done].
Qed.

Lemma map_cell_ext {A B} (f g : A → Cell B) xs :
  (∀ x, x ∈ xs → f x = g x) → map_cell f xs = map_cell g xs.
Proof.
  induction xs as [|x xs IH]; intros Hfg; [done|]. cbn [map_cell].
  rewrite Hfg by left. apply bind_ext. intros y. rewrite IH; [done|].
  intros ??. apply Hfg. by right.
Qed.

(** Frames related column by column. *)
Section related_frames.
Context (Q : string → column → column → Prop).

Lemma related_public df1 df2 key :
  related Q df1 df2 → public Q key → columns df1 !! key = columns df2 !! key.
Proof.
  intros [_ Hcols] Hkey. destruct (Hcols key) as [c1 c2 Hc|]; [|done].
  f_equal. by apply Hkey.
Qed.

Lemma related_setitem df1 df2 key c1 c2 :
  related Q df1 df2 → Q key c1 c2 →
  related Q (setitem df1 key c1) (setitem df2 key c2).
Proof.
  intros [Hrows Hcols] Hc. split; [done|]. intros key'. cbn.
  destruct (decide (key = key')) as [<-|Hne].
  - rewrite !lookup_insert_eq. by constructor.
  - rewrite !lookup_insert_ne by done. apply Hcols.
Qed.

Lemma related_setitem_public df1 df2 key c :
  related Q df1 df2 → public Q key →
  related Q (setitem df1 key c) (setitem df2 key c).
Proof. intros Hdf Hkey. apply related_setitem; [done|]. by apply Hkey. Qed.

Lemma getitem_public df1 df2 key :
  related Q df1 df2 → public Q key → getitem df1 key = getitem df2 key.
Proof. intros Hdf Hkey. unfold getitem. by rewrite (related_public df1 df2). Qed.

Lemma rel_getitem df1 df2 key :
  related Q df1 df2 → cell_rel (Q key) (getitem df1 key) (getitem df2 key).
Proof.
  intros [_ Hcols]. unfold getitem.
  destruct (Hcols key); [by apply rel_mret|by apply rel_raise].
Qed.

Lemma rel_rescale_public df1 df2 kn :
  public Q kn.1 → related Q df1 df2 →
  cell_rel (related Q) (rescale kn df1) (rescale kn df2).
Proof.
  intros Hkey Hdf. unfold rescale. rewrite (getitem_public df1 df2) by done.
  eapply rel_bind; [by apply rel_eq|]. intros c ? <-.
  eapply rel_bind; [by apply rel_eq|]. intros c' ? <-.
  apply rel_mret. by apply related_setitem_public.
Qed.

Lemma rel_rescale_numeric df1 df2 kn :
  (∀ c1 c2, Q kn.1 c1 c2 → is_Some (numeric c1) ∧ is_Some (numeric c2)) →
  (∀ xs1 xs2, Q kn.1 (Float64 xs1) (Float64 xs2)) →
  related Q df1 df2 →
  cell_rel (related Q) (rescale kn df1) (rescale kn df2).
Proof.
  intros Hnum Hfloat Hdf. unfold rescale.
  eapply rel_bind; [by apply rel_getitem|]. intros c1 c2 Hc.
  destruct (Hnum c1 c2 Hc) as [[xs1 Hxs1] [xs2 Hxs2]].
  rewrite (truediv_numeric c1 _ xs1), (truediv_numeric c2 _ xs2) by done.
  rewrite !bind_mret_l. apply rel_mret. apply related_setitem; [done|].
  apply Hfloat.
Qed.

Lemma iloc_row_public df1 df2 key i :
  related Q df1 df2 → public Q key → iloc_row df1 i !! key = iloc_row df2 i !! key.
Proof.
  intros Hdf Hkey. unfold iloc_row. by rewrite !lookup_omap, (related_public df1 df2).
Qed.

Lemma rel_start_distance df1 df2 action :
  public Q (action +:+ "_start_x") → public Q (action +:+ "_start_y") →
  public Q (action +:+ "_start_distance") → related Q df1 df2 →
  cell_rel (related Q) (start_distance action df1) (start_distance action df2).
Proof.
  intros Hx Hy Hd Hdf. unfold start_distance, apply_rows.
  destruct Hdf as [Hrows Hcols]. rewrite Hrows.
  eapply rel_bind with (P := eq).
  { apply rel_eq. f_equal. apply map_cell_ext. intros i _. unfold getitem_row.
    by rewrite !(iloc_row_public df1 df2). }
  intros d ? <-. apply rel_mret. by apply related_setitem_public.
Qed.

Lemma rel_body_part df1 df2 action :
  public Q (action +:+ "_body_part_id") → public Q (action +:+ "_is_foot") →
  public Q (action +:+ "_is_head") → public Q (action +:+ "_is_other") →
  related Q df1 df2 →
  cell_rel (related Q) (body_part action df1) (body_part action df2).
Proof.
  intros Hbp Hfoot Hhead Hother Hdf. unfold body_part.
  rewrite (getitem_public df1 df2) by done.
  eapply rel_bind; [by apply rel_eq|]. intros c0 ? <-. cbn zeta.
  pose proof (related_setitem_public _ _ _ (eq_scalar c0 0) Hdf Hfoot) as Hdf'.
  rewrite (getitem_public _ _ _ Hdf') by done.
  eapply rel_bind; [by apply rel_eq|]. intros c1 ? <-. cbn zeta.
  pose proof (related_setitem_public _ _ _ (eq_scalar c1 1) Hdf' Hhead) as Hdf''.
  rewrite (getitem_public _ _ _ Hdf'') by done.
  eapply rel_bind; [by apply rel_eq|]. intros c2 ? <-.
  apply rel_mret. by apply related_setitem_public.
Qed.

Lemma construct_dataset_public df1 df2 :
  (∀ key, key ∈ columns_features → public Q key) → public Q column_target →
  related Q df1 df2 → construct_dataset df1 = construct_dataset df2.
Proof.
  intros Hfeatures Htarget Hdf.
  unfold construct_dataset, getitem_list, getitem_series.
  rewrite (getitem_public df1 df2 column_target) by done.
  destruct Hdf as [Hrows Hcols]. rewrite Hrows.
  do 2 f_equal. apply map_cell_ext. intros key Hkey.
  by rewrite (getitem_public df1 df2 key) by (done || by apply Hfeatures).
Qed.
End related_frames.

(** * The features do not depend on the end locations *)

(** Decides membership of a written-out key in a written-out list. *)
Ltac not_in_keys := apply (bool_decide_unpack _); by vm_compute.

Lemma public_not_end key : key ∉ end_keys → public any_numbers_at_end key.
Proof. intros Hkey c1 c2. unfold any_numbers_at_end. by rewrite decide_False. Qed.

Lemma prepare_public Q df1 df2 :
  (∀ key n, (key, n) ∈ coordinate_keys → 
     public Q key ∨
     ((∀ c1 c2, Q key c1 c2 → is_Some (numeric c1) ∧ is_Some (numeric c2)) ∧
      (∀ xs1 xs2, Q key (Float64 xs1) (Float64 xs2)))) →
  (∀ action, action ∈ actions →
     public Q (action +:+ "_start_x") ∧ public Q (action +:+ "_start_y") ∧
     public Q (action +:+ "_start_distance")) →
  (∀ df1 df2 action, action ∈ actions → related Q df1 df2 →
     cell_rel (related Q) (body_part action df1) (body_part action df2)) →
  (∀ key, key ∈ columns_features → public Q key) → public Q column_target →
  related Q df1 df2 → prepare df1 = prepare df2.
Proof.
  intros Hcoord Hstart Hbody Hfeatures Htarget Hdf.
  apply rel_eq. unfold prepare.
  eapply rel_bind with (P := related Q).
  { rewrite !normalize_rescale. apply rel_for_each; [done|].
    intros [key n] s1 s2 Hin Hs. destruct (Hcoord key n Hin) as [Hpub|[Hnum Hfl]].
    - by apply rel_rescale_public.
    - by apply rel_rescale_numeric. }
  intros df1' df2' Hdf'. eapply rel_bind with (P := related Q).
  { apply rel_for_each; [done|]. intros action s1 s2 Ha Hs.
    destruct (Hstart action Ha) as (? & ? & ?). by apply rel_start_distance. }
  clear df1' df2' Hdf'. intros df1' df2' Hdf'.
  eapply rel_bind with (P := related Q).
  { apply rel_for_each; [done|]. intros action s1 s2 Ha Hs. by apply Hbody. }
  clear df1' df2' Hdf'. intros df1' df2' Hdf'.
  apply rel_eq. by apply construct_dataset_public with Q.
Qed.

(** C9. The feature matrix and the label vector do not depend on the end
    locations: two frames that agree on every column except that their end_x
    and end_y columns (of any of the three actions) hold different numbers
    are prepared to the same [X] and [y]; the whole run of the preparation is
    the same, what it prints and whether it raises included. *)
Theorem features_ignore_end_locations df1 df2 :
  differ_only_at_end df1 df2 → prepare df1 = prepare df2.
Proof.
  apply prepare_public.
  - intros key n Hin. destruct (decide (key ∈ end_keys)) as [Hend|Hend].
    + right. split.
      * intros c1 c2. unfold any_numbers_at_end. by rewrite decide_True.
      * intros xs1 xs2. unfold any_numbers_at_end. rewrite decide_True by done.
        split; by eexists.
    + left. by apply public_not_end.
  - intros action Ha. each_member Ha; split_and!; apply public_not_end; not_in_keys.
  - intros df1' df2' action Ha Hdf'.
    each_member Ha; apply rel_body_part; try done; apply public_not_end; not_in_keys.
  - intros key Hkey. each_member Hkey; apply public_not_end; not_in_keys.
  - apply public_not_end. not_in_keys.
Qed.

(** * The preparation, end to end *)

Lemma same_except_lookup written df df' key :
  same_except written df df' → key ∉ written →
  columns df' !! key = columns df !! key.
Proof. intros [_ H]. apply H. Qed.

Lemma returns_frame (m : Cell DataFrame) (P Q : DataFrame → Prop) :
  returns m P → ensures m Q → ∃ df', m = mret df' ∧ P df' ∧ Q df'.
Proof. intros HP HQ. by apply returns_ensures. Qed.

(** On a valid frame the preparation returns, prints nothing, and [X] and
    [y] are these: the normalized start location of the shot, the foot and
    head flags of the shot, the three distances over the normalized frame,
    and the untouched labels. *)
Lemma prepare_returns df :
  valid_shots df →
  ∃ df1 xs ys c t,
    normalize df = mret df1 ∧
    columns df1 !! "action_start_x" = Some (Float64 xs) ∧
    columns df1 !! "action_start_y" = Some (Float64 ys) ∧
    columns df !! "action_body_part_id" = Some c ∧
    columns df !! column_target = Some t ∧
    prepare df
    = mret ({| f_index := seq 0 (nrows df);
               f_columns :=
                 [ ("action_start_x", Float64 xs);
                   ("action_start_y", Float64 ys);
                   ("action_is_foot", eq_scalar c 0);
                   ("action_is_head", eq_scalar c 1);
                   ("action_start_distance",
                    Float64 (distances df1 "action_start_x" "action_start_y"));
                   ("action1_start_distance",
                    Float64 (distances df1 "action1_start_x" "action1_start_y"));
                   ("action2_start_distance",
                    Float64 (distances df1 "action2_start_x" "action2_start_y")) ] |},
            {| s_index := seq 0 (nrows df); s_values := t |}).
Proof.
  intros (Hcoord & Hstart & Hbp & [t Ht]).
  destruct (normalize_returns df Hcoord) as (df1 & Hrun1 & Hrows1 & Hin1 & Hout1).
  assert (numeric_starts df1) as Hstart1.
  { intros action i Ha Hi. rewrite Hrows1 in Hi.
    destruct (Hstart action i Ha Hi) as [[x Hx] [y Hy]].
    rewrite (value_scaled df df1 (key_x action "start") 105),
      (value_scaled df df1 (key_y action "start") 68)
      by (apply Hin1; first [apply coordinate_keys_x|apply coordinate_keys_y];
          [done|by left]).
    change (key_x action "start") with (action +:+ "_start_x").
    change (key_y action "start") with (action +:+ "_start_y").
    rewrite Hx, Hy. by eauto. }
  destruct (returns_frame _ _ _ (compute_distances_returns df1 Hstart1)
              (compute_distances_frame df1))
    as (df2 & Hrun2 & [Hrows2 Hin2] & Hout2).
  assert (has_body_parts df2) as Hbp2.
  { intros action Ha.
    rewrite (same_except_lookup _ _ _ _ Hout2), Hout1
      by (each_member Ha; not_in_keys). by apply Hbp. }
  destruct (returns_frame _ _ _ (determine_body_part_returns df2 Hbp2)
              (determine_body_part_frame df2))
    as (df3 & Hrun3 & [Hrows3 Hin3] & Hout3).
  destruct (Hcoord "action" "start") as [[xs0 Hxs0] [ys0 Hys0]]; [by left..|].
  destruct (Hbp "action") as [c Hc]; [by left|].
  exists df1, ((λ x, x / 105)%R <$> xs0), ((λ y, y / 68)%R <$> ys0), c, t.
  assert (columns df1 !! "action_start_x"
          = Some (Float64 ((λ x, x / 105)%R <$> xs0))) as Hx1.
  { rewrite (Hin1 _ 105%positive) by (apply (coordinate_keys_x "action" "start"); by left).
    change "action_start_x" with (key_x "action" "start"). by rewrite Hxs0. }
  assert (columns df1 !! "action_start_y"
          = Some (Float64 ((λ y, y / 68)%R <$> ys0))) as Hy1.
  { rewrite (Hin1 _ 68%positive) by (apply (coordinate_keys_y "action" "start"); by left).
    change "action_start_y" with (key_y "action" "start"). by rewrite Hys0. }
  split_and!; [done..|].
  destruct (Hin3 "action" c) as (Hfoot & Hhead & _); [by left| |].
  { rewrite (same_except_lookup _ _ _ _ Hout2), Hout1 by not_in_keys. done. }
  unfold prepare. rewrite Hrun1, bind_mret_l, Hrun2, bind_mret_l, Hrun3, bind_mret_l.
  unfold construct_dataset, getitem_list, getitem_series, columns_features.
  cbn [map_cell].
  rewrite (getitem_Some df3 "action_start_x" (Float64 ((λ x, x / 105)%R <$> xs0))),
    bind_mret_l, bind_mret_l.
  2:{ rewrite (same_except_lookup _ _ _ _ Hout3),
        (same_except_lookup _ _ _ _ Hout2) by not_in_keys. done. }
  rewrite (getitem_Some df3 "action_start_y" (Float64 ((λ y, y / 68)%R <$> ys0))),
    bind_mret_l, bind_mret_l.
  2:{ rewrite (same_except_lookup _ _ _ _ Hout3),
        (same_except_lookup _ _ _ _ Hout2) by not_in_keys. done. }
  rewrite (getitem_Some df3 "action_is_foot" (eq_scalar c 0)),
    bind_mret_l, bind_mret_l by done.
  rewrite (getitem_Some df3 "action_is_head" (eq_scalar c 1)),
    bind_mret_l, bind_mret_l by done.
  rewrite (getitem_Some df3 "action_start_distance"
             (Float64 (distances df1 "action_start_x" "action_start_y"))),
    bind_mret_l, bind_mret_l.
  2:{ rewrite (same_except_lookup _ _ _ _ Hout3) by not_in_keys.
      apply (Hin2 "action"). by left. }
  rewrite (getitem_Some df3 "action1_start_distance"
             (Float64 (distances df1 "action1_start_x" "action1_start_y"))),
    bind_mret_l, bind_mret_l.
  2:{ rewrite (same_except_lookup _ _ _ _ Hout3) by not_in_keys.
      apply (Hin2 "action1"). by right; left. }
  rewrite (getitem_Some df3 "action2_start_distance"
             (Float64 (distances df1 "action2_start_x" "action2_start_y"))),
    bind_mret_l, bind_mret_l.
  2:{ rewrite (same_except_lookup _ _ _ _ Hout3) by not_in_keys.
      apply (Hin2 "action2"). by right; right; left. }
  rewrite !bind_mret_l.
  rewrite (getitem_Some df3 column_target t), !bind_mret_l.
  2:{ rewrite (same_except_lookup _ _ _ _ Hout3),
        (same_except_lookup _ _ _ _ Hout2), Hout1 by not_in_keys. done. }
  by rewrite Hrows3, Hrows2, Hrows1.
Qed.

Lemma related_refl Q df :
  (∀ key c, columns df !! key = Some c → Q key c c) → related Q df df.
Proof.
  intros HQ. split; [done|]. intros key.
  destruct (columns df !! key) as [c|] eqn:Hc; constructor. by apply HQ.
Qed.

Lemma related_setitem_r Q df1 df2 key c1 c2 :
  related Q df1 df2 → columns df1 !! key = Some c1 → Q key c1 c2 →
  related Q df1 (setitem df2 key c2).
Proof.
  intros [Hrows Hcols] Hc1 Hc. split; [done|]. intros key'. cbn.
  destruct (decide (key = key')) as [<-|Hne].
  - rewrite lookup_insert_eq, Hc1. by constructor.
  - rewrite lookup_insert_ne by done. apply Hcols.
Qed.

Lemma two_shots_starts : numeric_starts two_shots.
Proof.
  intros action i Ha Hi. destruct i as [|[|i]]; [..|cbn in Hi; lia];
    each_member Ha; split; vm_compute; eauto.
Qed.

Lemma two_shots_valid : valid_shots two_shots.
Proof.
  split_and!; [apply two_shots_numeric|apply two_shots_starts|
               apply two_shots_body_parts|vm_compute; eauto].
Qed.

Lemma moved_ends_differ : differ_only_at_end two_shots moved_ends.
Proof.
  unfold moved_ends.
  apply related_setitem_r with (Float64 [34; 17]%R);
    [|vm_compute; reflexivity|vm_compute; eauto].
  apply related_setitem_r with (Float64 [105; 105]%R);
    [|vm_compute; reflexivity|vm_compute; eauto].
  apply related_refl. intros key c Hc. unfold any_numbers_at_end.
  case_decide as Hkey; [|done].
  unfold end_keys in Hkey. each_member Hkey;
    vm_compute in Hc; injection Hc as <-; vm_compute; eauto.
Qed.

Lemma features_ignore_end_locations_witness :
  ∃ X y, prepare two_shots = mret (X, y) ∧ prepare moved_ends = mret (X, y).
Proof.
  destruct (prepare_returns two_shots two_shots_valid)
    as (df1 & xs & ys & c & t & _ & _ & _ & _ & _ & Hrun).
  eexists _, _. split; [exact Hrun|].
  rewrite <- (features_ignore_end_locations two_shots moved_ends moved_ends_differ).
  exact Hrun.
Defined.

(** * The 'other' body part in the features *)










(** * The splitter *)

Section pick.
Context {A : Type}.
Implicit Types (xs : list A) (rows : list nat).

Lemma take_rows_pick xs rows :
  Forall (λ i, i < length xs)%nat rows → take_rows xs rows = mret (pick xs rows).
Proof.
  unfold take_rows. induction 1 as [|i rows Hi _ IH]; [done|].
  cbn [map_cell pick]. destruct (lookup_lt_is_Some_2 xs i Hi) as [x Hx].
  by rewrite Hx, bind_mret_l, IH, bind_mret_l.
Qed.

Lemma pick_lookup xs rows j p :
  Forall (λ i, i < length xs)%nat rows → rows !! j = Some p →
  pick xs rows !! j = xs !! p.
Proof.
  intros Hrows. revert j. induction Hrows as [|i rows Hi _ IH]; intros j; [done|].
  cbn [pick]. destruct (lookup_lt_is_Some_2 xs i Hi) as [x Hx]. rewrite Hx.
  destruct j as [|j]; cbn; [by intros [= ->]|apply IH].
Qed.

Lemma length_pick xs rows :
  Forall (λ i, i < length xs)%nat rows → length (pick xs rows) = length rows.
Proof.
  induction 1 as [|i rows Hi _ IH]; [done|]. cbn [pick].
  destruct (lookup_lt_is_Some_2 xs i Hi) as [x ->]. cbn. by rewrite IH.
Qed.

Lemma elem_of_pick xs rows x :
  x ∈ pick xs rows → ∃ p, p ∈ rows ∧ xs !! p = Some x.
Proof.
  induction rows as [|i rows IH]; cbn [pick]; [by intros ?%elem_of_nil|].
  destruct (xs !! i) as [x'|] eqn:Hx.
  - intros [->|Hin]%elem_of_cons; [exists i; split; [left|done]|].
    destruct (IH Hin) as (p & ? & ?). exists p. split; [by right|done].
  - intros Hin. destruct (IH Hin) as (p & ? & ?). exists p. split; [by right|done].
Qed.
End pick.

Lemma iloc_pick c rows :
  Forall (λ i, i < col_length c)%nat rows → iloc c rows = mret (pick_column c rows).
Proof.
  intros Hrows. destruct c; cbn in *; by rewrite take_rows_pick, bind_mret_l.
Qed.

Lemma cell_pick_column c rows j p :
  Forall (λ i, i < col_length c)%nat rows → rows !! j = Some p →
  cell (pick_column c rows) j = cell c p.
Proof.
  intros Hrows Hj. destruct c; cbn in *; by rewrite (pick_lookup _ rows j p).
Qed.

Lemma col_length_pick_column c rows :
  Forall (λ i, i < col_length c)%nat rows →
  col_length (pick_column c rows) = length rows.
Proof. intros Hrows. destruct c; cbn in *; by apply length_pick. Qed.

Lemma iloc_frame_pick X rows :
  Forall (λ i, i < length (f_index X))%nat rows →
  Forall (λ kc : string * column, col_length kc.2 = length (f_index X))
    (f_columns X) →
  iloc_frame X rows = mret (pick_frame X rows).
Proof.
  intros Hrows Hcols. unfold iloc_frame.
  rewrite take_rows_pick, bind_mret_l by done.
  rewrite (map_cell_pure _ (λ kc : string * column, (kc.1, pick_column kc.2 rows))).
  { by rewrite bind_mret_l. }
  intros [key c] Hin. rewrite Forall_forall in Hcols.
  specialize (Hcols _ Hin). cbn in *.
  rewrite iloc_pick, bind_mret_l; [done|]. by rewrite Hcols.
Qed.

Lemma iloc_series_pick y rows :
  Forall (λ i, i < length (s_index y))%nat rows →
  col_length (s_values y) = length (s_index y) →
  iloc_series y rows = mret (pick_series y rows).
Proof.
  intros Hrows Hcol. unfold iloc_series.
  rewrite take_rows_pick, bind_mret_l by done.
  rewrite iloc_pick, bind_mret_l; [done|]. by rewrite Hcol.
Qed.

Lemma row_at_pick_frame X rows j p :
  Forall (λ i, i < length (f_index X))%nat rows →
  Forall (λ kc : string * column, col_length kc.2 = length (f_index X))
    (f_columns X) →
  rows !! j = Some p →
  row_at (pick_frame X rows) j = row_at X p.
Proof.
  intros Hrows Hcols Hj. unfold row_at, pick_frame. cbn.
  rewrite <- list_fmap_compose. apply Forall_fmap_ext_1.
  eapply Forall_impl; [exact Hcols|]. intros [key c] Hc. cbn in *.
  f_equal. apply cell_pick_column; [|done]. by rewrite Hc.
Qed.

Lemma ceiling_tenth z : Qceiling (0.1 * inject_Z z) = - (- z / 10).
Proof. unfold Qceiling, Qfloor. cbn. by destruct z. Qed.

Lemma n_test_tenth n : (2 ≤ n)%nat → (1 ≤ n_test_of 0.1 n < n)%nat.
Proof.
  intros Hn. unfold n_test_of. rewrite ceiling_tenth.
  pose proof (Z.div_mod (- Z.of_nat n) 10).
  pose proof (Z.mod_pos_bound (- Z.of_nat n) 10). lia.
Qed.

Lemma elem_of_pick_2 {A} (xs : list A) rows p x :
  p ∈ rows → xs !! p = Some x → x ∈ pick xs rows.
Proof.
  intros Hp Hx. induction rows as [|i rows IH]; [by apply elem_of_nil in Hp|].
  cbn [pick]. apply elem_of_cons in Hp as [<-|Hp].
  - rewrite Hx. by left.
  - destruct (xs !! i); [right|]; by apply IH.
Qed.

Lemma corresponds_pick X y rows :
  dataset X y → Forall (λ i, i < length (f_index X))%nat rows →
  corresponds X y (pick_frame X rows) (pick_series y rows).
Proof.
  intros (Hidx & _ & Hy & Hcols) Hrows. split; [cbn; by rewrite Hidx|].
  cbn [pick_frame f_index]. rewrite length_pick by done. intros j Hj.
  destruct (lookup_lt_is_Some_2 rows j Hj) as [p Hp]. exists p.
  rewrite Forall_lookup in Hrows. split_and!.
  - by eapply Hrows.
  - apply pick_lookup; [by apply Forall_lookup|done].
  - apply row_at_pick_frame; [by apply Forall_lookup|done..].
  - cbn. apply cell_pick_column; [|done]. rewrite Hy. by apply Forall_lookup.
Qed.

(** What the splitter returns when its checks pass: the rows at the first
    [n_test] positions of the permutation for testing, the others for
    training. *)
Lemma train_test_split_returns X y test_size permutation :
  dataset X y → permutation ≡ₚ seq 0 (length (f_index X)) →
  Qle_bool test_size 0 || Qle_bool 1 test_size = false →
  (n_test_of test_size (length (f_index X)) < length (f_index X))%nat →
  let test := take (n_test_of test_size (length (f_index X))) permutation in
  let train := drop (n_test_of test_size (length (f_index X))) permutation in
  train_test_split X y test_size permutation
  = mret (pick_frame X train, pick_frame X test,
          pick_series y train, pick_series y test).
Proof.
  intros Hds Hperm Hsize Hn test train. pose proof Hds as (Hidx & Hnd & Hy & Hcols).
  assert (Forall (λ i, i < length (f_index X))%nat permutation) as Hlt.
  { rewrite Hperm. apply Forall_forall. by intros i [_ ?]%elem_of_seq. }
  assert (length permutation = length (f_index X)) as Hlen
    by (by rewrite Hperm, length_seq).
  unfold train_test_split. rewrite Hidx, Nat.eqb_refl. cbn [negb].
  rewrite Hsize. fold (n_test_of test_size (length (f_index X))).
  destruct (Nat.eqb_spec (length (f_index X) - n_test_of test_size (length (f_index X))) 0)
    as [Hz|_]; [lia|].
  rewrite (take_ge (drop _ _)) by (rewrite length_drop; lia).
  fold test train.
  rewrite !iloc_frame_pick, !bind_mret_l by (done || by apply Forall_take || by apply Forall_drop).
  rewrite !iloc_series_pick, !bind_mret_l;
    rewrite ?Hidx; (done || by apply Forall_take || by apply Forall_drop).
Qed.

Lemma partitions_pick X y permutation n :
  dataset X y → permutation ≡ₚ seq 0 (length (f_index X)) →
  (n ≤ length (f_index X))%nat →
  partitions X y (pick_frame X (drop n permutation)) (pick_frame X (take n permutation))
    (pick_series y (drop n permutation)) (pick_series y (take n permutation)).
Proof.
  intros Hds Hperm Hn. pose proof Hds as (Hidx & Hnd & Hy & Hcols).
  assert (Forall (λ i, i < length (f_index X))%nat permutation) as Hlt.
  { rewrite Hperm. apply Forall_forall. by intros i [_ ?]%elem_of_seq. }
  assert (length permutation = length (f_index X)) as Hlen
    by (by rewrite Hperm, length_seq).
  assert (NoDup (take n permutation ++ drop n permutation)) as Hsplit.
  { rewrite take_drop, Hperm. apply NoDup_seq. }
  apply NoDup_app in Hsplit as (_ & Hdisj & _).
  split_and!.
  - cbn. rewrite !length_pick by (by apply Forall_take || by apply Forall_drop).
    rewrite length_take, length_drop. lia.
  - cbn. intros i (p & Hp & Hip)%elem_of_pick (q & Hq & Hiq)%elem_of_pick.
    rewrite (NoDup_lookup _ _ _ _ Hnd Hip Hiq) in Hp. by apply (Hdisj q).
  - cbn. intros i (p & Hp)%list_elem_of_lookup.
    assert (p ∈ take n permutation ++ drop n permutation) as Hin.
    { rewrite take_drop, Hperm. apply elem_of_seq.
      apply lookup_lt_Some in Hp. lia. }
    apply elem_of_app in Hin as [Hin|Hin]; [right|left]; by eapply elem_of_pick_2.
  - apply corresponds_pick; [done|]. by apply Forall_drop.
  - apply corresponds_pick; [done|]. by apply Forall_take.
Qed.

Lemma train_test_split_raises X y test_size permutation :
  s_index y = f_index X →
  Qle_bool test_size 0 || Qle_bool 1 test_size = true ∨
  (length (f_index X) ≤ n_test_of test_size (length (f_index X)))%nat →
  train_test_split X y test_size permutation = raise ValueError.
Proof.
  intros Hidx Hbad. unfold train_test_split. rewrite Hidx, Nat.eqb_refl. cbn [negb].
  destruct (Qle_bool test_size 0 || Qle_bool 1 test_size); [done|].
  destruct Hbad as [?|Hn]; [done|]. fold (n_test_of test_size (length (f_index X))).
  by destruct (Nat.eqb_spec (length (f_index X) - n_test_of test_size (length (f_index X))) 0);
    [|lia].
Qed.

(** C4. For a feature matrix and a label vector over the same N rows and
    any shuffle of the rows: whatever the splitter returns partitions the
    rows (the sizes add up to N, no row label is in both parts, none is
    lost, and each part of [X] is row for row the part of [y]); with
    test_size = 0.10 and at least two rows it does return, with
    ceil(0.10 N) test rows, which is 10 of 100. *)
Theorem train_test_split_partitions X y permutation :
  dataset X y → permutation ≡ₚ seq 0 (length (f_index X)) →
  (∀ test_size X_train X_test y_train y_test,
     outcome (train_test_split X y test_size permutation)
       = inr (X_train, X_test, y_train, y_test) →
     partitions X y X_train X_test y_train y_test) ∧
  ((2 ≤ length (f_index X))%nat →
     ∃ X_train X_test y_train y_test,
       train_test_split X y 0.1 permutation
         = mret (X_train, X_test, y_train, y_test) ∧
       length (f_index X_test) = n_test_of 0.1 (length (f_index X)) ∧
       (length (f_index X) = 100%nat →
          length (f_index X_test) = 10%nat ∧ length (f_index X_train) = 90%nat)).
Proof.
  intros Hds Hperm. pose proof Hds as (Hidx & Hnd & Hy & Hcols).
  assert (Forall (λ i, i < length (f_index X))%nat permutation) as Hlt.
  { rewrite Hperm. apply Forall_forall. by intros i [_ ?]%elem_of_seq. }
  assert (length permutation = length (f_index X)) as Hlen
    by (by rewrite Hperm, length_seq).
  split.
  - intros test_size X_train X_test y_train y_test Hrun.
    destruct (Qle_bool test_size 0 || Qle_bool 1 test_size) eqn:Hsize.
    { rewrite train_test_split_raises in Hrun by auto. done. }
    destruct (decide (n_test_of test_size (length (f_index X)) < length (f_index X))%nat)
      as [Hn|Hn].
    2:{ rewrite train_test_split_raises in Hrun by (done || right; lia). done. }
    rewrite train_test_split_returns in Hrun by done.
    injection Hrun as <- <- <- <-. apply partitions_pick; [done..|lia].
  - intros HN. destruct (n_test_tenth _ HN) as [Hn1 Hn2].
    eexists _, _, _, _. split; [by apply train_test_split_returns|].
    cbn [pick_frame f_index].
    rewrite !length_pick by (by apply Forall_take || by apply Forall_drop).
    rewrite length_take, length_drop, Hlen. split; [lia|].
    intros ->. by vm_compute.
Qed.

Lemma hundred_dataset : dataset hundred_X hundred_y.
Proof.
  split_and!; [done|apply NoDup_seq|by vm_compute|].
  repeat constructor.
Qed.

Lemma train_test_split_partitions_witness :
  ∃ X_train X_test y_train y_test,
    train_test_split hundred_X hundred_y 0.1 (reverse (seq 0 100))
      = mret (X_train, X_test, y_train, y_test) ∧
    length (f_index X_test) = 10%nat ∧ length (f_index X_train) = 90%nat ∧
    partitions hundred_X hundred_y X_train X_test y_train y_test.
Proof.
  destruct (train_test_split_partitions hundred_X hundred_y (reverse (seq 0 100))
              hundred_dataset (reverse_Permutation _)) as [Hpart Hrun].
  destruct Hrun as (X_train & X_test & y_train & y_test & Hrun & _ & Hsize);
    [cbn; lia|].
  exists X_train, X_test, y_train, y_test.
  destruct Hsize as [Htest Htrain]; [done|].
  split_and!; [done..|]. apply (Hpart 0.1%Q). by rewrite Hrun.
Defined.

(** * The baseline for AUC-PR *)

Lemma sum_binary_labels labels :
  binary_labels labels → foldr Z.add 0 labels = Z.of_nat (positives labels).
Proof.
  unfold positives. induction 1 as [|z labels Hz _ IH]; [done|]. cbn [foldr].
  rewrite IH, filter_cons. destruct Hz as [-> | ->].
  - by rewrite decide_False.
  - rewrite decide_True by done. cbn [length]. lia.
Qed.

Lemma positives_le_length labels : (positives labels ≤ length labels)%nat.
Proof. apply length_filter. Qed.

Lemma wrap64_small z : - 2 ^ 63 ≤ z < 2 ^ 63 → wrap64 z = z.
Proof.
  intros Hz. unfold wrap64. rewrite Z.mod_small; lia.
Qed.

Lemma auc_pr_baseline_binary y_train labels :
  s_values y_train = Int64 labels → binary_labels labels → labels ≠ [] →
  Z.of_nat (length labels) < 2 ^ 63 →
  auc_pr_baseline y_train
  = ([ Printed "The training set contains {} examples of which {} are positives."
         [SInt (Z.of_nat (length labels)); SInt (Z.of_nat (positives labels))];
       Printed "The baseline performance for AUC-PR is {}."
         [SFloat (positive_ratio labels)] ],
     inr (SFloat (positive_ratio labels))).
Proof.
  intros Hy Hbin Hne Hlen.
  unfold auc_pr_baseline, count_positives, baseline, count, sum. rewrite Hy.
  rewrite sum_binary_labels by done.
  pose proof (positives_le_length labels).
  rewrite wrap64_small by lia.
  unfold true_divide, print. cbn -[positives Z.of_nat IZR Rdiv].
  destruct (Z.eqb_spec (Z.of_nat (length labels)) 0) as [Hz|_].
  { destruct labels; [done|cbn in Hz; lia]. }
  done.
Qed.

(** C5 (as the code has it). The baseline for AUC-PR is the ratio of the
    positive labels of the training set to its size.  In the scenario of a
    dataset of 1,000 shots split with test_size = 0.10, the training set has
    900 rows and the baseline is (positives in train) / 900, with no further
    factor: it is 0.10 exactly when 90 of the training shots are goals. *)
Theorem auc_pr_baseline_ratio :
  (∀ y_train labels,
     s_values y_train = Int64 labels → binary_labels labels → labels ≠ [] →
     Z.of_nat (length labels) < 2 ^ 63 →
     outcome (auc_pr_baseline y_train) = inr (SFloat (positive_ratio labels))) ∧
  (∀ X y labels permutation,
     dataset X y → s_values y = Int64 labels → binary_labels labels →
     length labels = 1000%nat → permutation ≡ₚ seq 0 1000 →
     ∃ X_train X_test y_train y_test train_labels,
       train_test_split X y 0.1 permutation
         = mret (X_train, X_test, y_train, y_test) ∧
       s_values y_train = Int64 train_labels ∧
       length train_labels = 900%nat ∧
       outcome (auc_pr_baseline y_train)
         = inr (SFloat (IZR (Z.of_nat (positives train_labels)) / 900)) ∧
       ((IZR (Z.of_nat (positives train_labels)) / 900 = 0.10)%R
        ↔ positives train_labels = 90%nat)).
Proof.
  split.
  - intros y_train labels Hy Hbin Hne Hlen.
    by rewrite (auc_pr_baseline_binary y_train labels).
  - intros X y labels permutation Hds Hy Hbin Hlen Hperm.
    pose proof Hds as (Hidx & Hnd & Hcol & Hcols).
    assert (length (f_index X) = 1000%nat) as HN
      by (rewrite <- Hcol, Hy; done).
    rewrite <- HN in Hperm.
    assert (Forall (λ i, i < length labels)%nat permutation) as Hlt.
    { rewrite Hperm, Hlen, HN. apply Forall_forall. by intros i [_ ?]%elem_of_seq. }
    assert (length permutation = 1000%nat) as Hplen
      by (by rewrite Hperm, length_seq).
    eexists _, _, _, _, (pick labels (drop 100 permutation)).
    split_and!.
    + apply train_test_split_returns; [done..|]. rewrite HN.
      replace (n_test_of 0.1 1000) with 100%nat by (by vm_compute). lia.
    + cbn. rewrite Hy, HN. cbn. do 2 f_equal.
    + rewrite length_pick by (by apply Forall_drop). rewrite length_drop. lia.
    + rewrite (auc_pr_baseline_binary _ (pick labels (drop 100 permutation))).
      * cbn. unfold positive_ratio.
        rewrite length_pick by (by apply Forall_drop).
        rewrite length_drop, Hplen. done.
      * cbn. rewrite Hy, HN. done.
      * apply Forall_forall. intros z (p & _ & Hz)%elem_of_pick.
        unfold binary_labels in Hbin. rewrite Forall_lookup in Hbin. by eapply Hbin.
      * intros Hnil. apply (f_equal length) in Hnil.
        rewrite length_pick in Hnil by (by apply Forall_drop).
        rewrite length_drop in Hnil. cbn in Hnil. lia.
      * rewrite length_pick by (by apply Forall_drop). rewrite length_drop. lia.
    + split.
      * intros Hr. assert (IZR (Z.of_nat (positives (pick labels (drop 100 permutation))))
                           = IZR 90) as Hp%eq_IZR by lra. lia.
      * intros ->. change (Z.of_nat 90) with 90. lra.
Qed.

Lemma thousand_dataset : dataset thousand_X thousand_y.
Proof.
  split_and!; [done|apply NoDup_seq|by vm_compute|].
  constructor; [by vm_compute|constructor].
Qed.

(** C5 as stated fails.  With the rows in their order the split tests on the
    first hundred shots and trains on the other 900, 50 of them goals: the
    baseline is 50 / 900, which is not 0.10 times that ratio (and not 0.10
    either). *)
Lemma auc_pr_baseline_counterexample :
  positives thousand_labels = 100%nat ∧ length thousand_labels = 1000%nat ∧
  ∃ X_train X_test y_train y_test train_labels r,
    train_test_split thousand_X thousand_y 0.1 (seq 0 1000)
      = mret (X_train, X_test, y_train, y_test) ∧
    s_values y_train = Int64 train_labels ∧
    positives train_labels = 50%nat ∧ length train_labels = 900%nat ∧
    outcome (auc_pr_baseline y_train) = inr (SFloat r) ∧
    r = (50 / 900)%R ∧ r ≠ (0.10 * (50 / 900))%R ∧ r ≠ 0.10%R.
Proof.
  split_and!; [by vm_compute..|].
  set (train_labels := pick thousand_labels (drop 100 (seq 0 1000))).
  assert (positives train_labels = 50%nat) as Hpos by (by vm_compute).
  assert (length train_labels = 900%nat) as Hlen by (by vm_compute).
  eexists _, _, _, _, train_labels, (50 / 900)%R. split_and!.
  - apply train_test_split_returns; [apply thousand_dataset|done|done|].
    cbn [thousand_X f_index]. rewrite length_seq.
    replace (n_test_of 0.1 1000) with 100%nat by (by vm_compute). lia.
  - cbn [pick_series s_values thousand_y pick_column thousand_X f_index].
    rewrite length_seq.
    replace (n_test_of 0.1 1000) with 100%nat by (by vm_compute). done.
  - done.
  - done.
  - rewrite (auc_pr_baseline_binary _ train_labels).
    + cbn [outcome snd]. unfold positive_ratio. by rewrite Hpos, Hlen.
    + cbn [pick_series s_values thousand_y pick_column thousand_X f_index].
      rewrite length_seq.
      replace (n_test_of 0.1 1000) with 100%nat by (by vm_compute). done.
    + apply Forall_forall. intros z (p & _ & Hz)%elem_of_pick.
      unfold thousand_labels in Hz.
      apply list_elem_of_lookup_2 in Hz.
      rewrite !elem_of_app, !elem_of_replicate in Hz.
      destruct Hz as [[-> _]|[[-> _]|[-> _]]]; auto.
    + intros Hnil. by rewrite Hnil in Hlen.
    + rewrite Hlen. lia.
  - done.
  - lra.
  - lra.
Qed.

(** The [X] and [y] the notebook constructs from a well-formed frame are a
    dataset in the splitter's sense. *)
Lemma construct_dataset_dataset df X y :
  well_formed df → outcome (construct_dataset df) = inr (X, y) → dataset X y.
Proof.
  intros Hwf (HX & Hy & _ & Hcols & Htarget)%construct_dataset_reads.
  split_and!.
  - congruence.
  - rewrite HX. apply NoDup_seq.
  - rewrite HX, length_seq. by eapply Hwf.
  - apply Forall_forall. intros [key c] Hin. cbn.
    rewrite HX, length_seq. eapply Hwf. by apply Hcols.
Qed.

(** * Further properties of the cells *)

(** ** Schema errors of the normalizer *)

Lemma keys_of_tail (k k' : string) (n n' : positive) kns :
  k ∉ kns.*1 → (k', n') ∈ kns → k' ≠ k.
Proof.
  intros Hk Hin ->. apply Hk. by apply (list_elem_of_fmap_2 fst _ (k, n')).
Qed.

Lemma rescale_pair k n df :
  rescale (k, n) df = c ← getitem df k; c' ← truediv c n; mret (setitem df k c').
Proof. reflexivity. Qed.

Lemma rescale_all_KeyError kns df :
  NoDup kns.*1 →
  (∀ key n, (key, n) ∈ kns →
     columns df !! key = None ∨ is_Some (columns df !! key ≫= numeric)) →
  (∃ key n, (key, n) ∈ kns ∧ columns df !! key = None) →
  for_each kns rescale df = raise KeyError.
Proof.
  revert df. induction kns as [|[k n] kns IH]; intros df Hnd Hok Hmiss.
  { destruct Hmiss as (? & ? & []%elem_of_nil & _). }
  apply NoDup_cons in Hnd as [Hk Hnd]. cbn [for_each].
  destruct (Hok k n) as [Hnone|[xs Hxs]]; [left| |].
  { by rewrite rescale_pair, (getitem_None _ _ Hnone). }
  rewrite (rescale_returns (k, n) df xs Hxs), bind_mret_l.
  apply IH; [done| |].
  - intros key n' Hin. cbn.
    rewrite lookup_insert_ne by (by intros ->; eapply keys_of_tail).
    apply (Hok key n'). by right.
  - destruct Hmiss as (key & n' & [[= -> ->]|Hin]%elem_of_cons & Hnone).
    { rewrite Hnone in Hxs. done. }
    exists key, n'. split; [done|]. cbn.
    by rewrite lookup_insert_ne by (by intros ->; eapply keys_of_tail).
Qed.

Lemma rescale_all_TypeError kns df :
  NoDup kns.*1 →
  (∀ key n, (key, n) ∈ kns → is_Some (columns df !! key)) →
  (∃ key n s ss, (key, n) ∈ kns ∧ columns df !! key = Some (StrCol (s :: ss))) →
  for_each kns rescale df = raise TypeError.
Proof.
  revert df. induction kns as [|[k n] kns IH]; intros df Hnd Hok Hstr.
  { destruct Hstr as (? & ? & ? & ? & []%elem_of_nil & _). }
  apply NoDup_cons in Hnd as [Hk Hnd]. cbn [for_each].
  destruct (Hok k n) as [c Hc]; [left|].
  assert (∀ c', for_each kns rescale (setitem df k c') = raise TypeError
                ∨ ∃ s ss, c = StrCol (s :: ss)) as Htail.
  { intros c'.
    destruct Hstr as (key & n' & s & ss & [[= -> ->]|Hin]%elem_of_cons & Hs).
    { right. exists s, ss. congruence. }
    left. apply IH; [done| |].
    - intros key' n'' Hin'. cbn.
      rewrite lookup_insert_ne by (by intros ->; eapply keys_of_tail).
      apply (Hok key' n''). by right.
    - exists key, n', s, ss. split; [done|]. cbn.
      by rewrite lookup_insert_ne by (by intros ->; eapply keys_of_tail). }
  rewrite rescale_pair, (getitem_Some _ _ c Hc), bind_mret_l.
  destruct c as [xs|zs|bs|[|s ss]]; cbn [truediv].
  1-4: rewrite !bind_mret_l;
    match goal with
    | |- for_each _ _ (setitem _ _ ?c') = _ =>
        by destruct (Htail c') as [?|(? & ? & ?)]
    end.
  done.
Qed.

(** X1. Normalizing a frame in which a coordinate column is missing, the
    others holding numbers, raises KeyError. *)
Theorem normalize_missing_column df :
  numeric_where_present df → missing_coordinate df →
  normalize df = raise KeyError.
Proof.
  intros Hok (key & Hkey & Hnone). rewrite normalize_rescale.
  apply rescale_all_KeyError; [apply coordinate_keys_NoDup| |].
  - intros key' n Hin. apply Hok. by apply (list_elem_of_fmap_2 fst _ (key', n)).
  - apply list_elem_of_fmap in Hkey as ([key' n] & -> & Hin). by exists key', n.
Qed.

(** X2. Normalizing a frame that has all twelve coordinate columns, one of
    them holding strings, raises TypeError. *)
Theorem normalize_string_column df :
  coordinates_present df → string_coordinate df →
  normalize df = raise TypeError.
Proof.
  intros Hok (key & s & ss & Hkey & Hstr). rewrite normalize_rescale.
  apply rescale_all_TypeError; [apply coordinate_keys_NoDup| |].
  - intros key' n Hin. apply Hok. by apply (list_elem_of_fmap_2 fst _ (key', n)).
  - apply list_elem_of_fmap in Hkey as ([key' n] & -> & Hin).
    by exists key', n, s, ss.
Qed.

Lemma normalize_missing_column_witness : normalize no_end_y = raise KeyError.
Proof.
  apply normalize_missing_column.
  - intros key Hkey. unfold coordinate_keys in Hkey. cbn in Hkey.
    each_member Hkey; vm_compute; eauto.
  - exists "action2_end_y". split; [|by vm_compute].
    apply (bool_decide_unpack _). by vm_compute.
Defined.

Lemma normalize_string_column_witness : normalize named_ends = raise TypeError.
Proof.
  apply normalize_string_column.
  - intros key Hkey. unfold coordinate_keys in Hkey. cbn in Hkey.
    each_member Hkey; vm_compute; eauto.
  - exists "action1_end_x", "left", ["right"]. split; [|by vm_compute].
    apply (bool_decide_unpack _). by vm_compute.
Defined.

(** ** The shape of the frame *)

Lemma well_formed_setitem df key c :
  well_formed df → col_length c = nrows df → well_formed (setitem df key c).
Proof.
  intros Hwf Hc key' c'. cbn. destruct (decide (key' = key)) as [->|Hne].
  - rewrite lookup_insert_eq. by intros [= <-].
  - rewrite lookup_insert_ne by done. apply Hwf.
Qed.

Lemma same_shape_refl df : well_formed df → same_shape df df.
Proof. by split. Qed.

Lemma same_shape_setitem df0 df key c :
  same_shape df0 df → col_length c = nrows df → same_shape df0 (setitem df key c).
Proof.
  intros [Hwf Hn] Hc. split; [by apply well_formed_setitem|done].
Qed.

Lemma col_length_eq_scalar c k : col_length (eq_scalar c k) = col_length c.
Proof. destruct c; cbn; by rewrite length_map. Qed.

Lemma rescale_shape df0 kn df :
  same_shape df0 df → ensures (rescale kn df) (same_shape df0).
Proof.
  intros Hs df'. unfold rescale.
  intros (c & Hc & (c' & Hc' & [= <-])%outcome_bind)%outcome_bind.
  apply same_shape_setitem; [done|].
  rewrite (ensures_truediv_float _ _ _ Hc').
  unfold getitem in Hc. destruct (columns df !! kn.1) as [c0|] eqn:Hc0; [|done].
  injection Hc as ->. by apply (proj1 Hs kn.1).
Qed.

Lemma normalize_shape df : well_formed df → ensures (normalize df) (same_shape df).
Proof.
  intros Hwf. rewrite normalize_rescale.
  apply ensures_for_each; [by apply same_shape_refl|].
  intros kn s _ Hs. by apply rescale_shape.
Qed.

Lemma start_distance_shape df0 action df :
  same_shape df0 df → ensures (start_distance action df) (same_shape df0).
Proof.
  intros Hs df'. unfold start_distance, apply_rows.
  intros (c & (xs & Hxs & [= <-])%outcome_bind & [= <-])%outcome_bind.
  apply same_shape_setitem; [done|]. cbn.
  apply map_cell_outcome, Forall2_length in Hxs. by rewrite <- Hxs, length_seq.
Qed.

Lemma compute_distances_shape df :
  well_formed df → ensures (compute_distances df) (same_shape df).
Proof.
  intros Hwf. apply ensures_for_each; [by apply same_shape_refl|].
  intros action s _ Hs. by apply start_distance_shape.
Qed.

Lemma getitem_shape df0 df key c :
  same_shape df0 df → outcome (getitem df key) = inr c → col_length c = nrows df.
Proof.
  intros [Hwf _]. unfold getitem.
  destruct (columns df !! key) as [c0|] eqn:Hc0; [|done].
  intros [= <-]. by apply (Hwf key).
Qed.

Lemma body_part_shape df0 action df :
  same_shape df0 df → ensures (body_part action df) (same_shape df0).
Proof.
  intros Hs df'. unfold body_part.
  intros (c1 & Hc1 & (c2 & Hc2 & (c3 & Hc3 & [= <-])%outcome_bind)%outcome_bind)%outcome_bind.
  assert (same_shape df0 (setitem df (action +:+ "_is_foot") (eq_scalar c1 0))) as Hs1.
  { apply same_shape_setitem; [done|].
    rewrite col_length_eq_scalar. by eapply getitem_shape. }
  assert (same_shape df0
            (setitem (setitem df (action +:+ "_is_foot") (eq_scalar c1 0))
               (action +:+ "_is_head") (eq_scalar c2 1))) as Hs2.
  { apply same_shape_setitem; [done|].
    rewrite col_length_eq_scalar.
    etrans; [by eapply (getitem_shape df0 _ _ c2 Hs1)|done]. }
  apply same_shape_setitem; [done|].
  rewrite col_length_eq_scalar.
  etrans; [by eapply (getitem_shape df0 _ _ c3 Hs2)|done].
Qed.

Lemma determine_body_part_shape df :
  well_formed df → ensures (determine_body_part df) (same_shape df).
Proof.
  intros Hwf. apply ensures_for_each; [by apply same_shape_refl|].
  intros action s _ Hs. by apply body_part_shape.
Qed.

Lemma two_shots_well_formed : well_formed two_shots.
Proof.
  intros key c. revert key c. apply (bool_decide_unpack _). by vm_compute.
Qed.

(** X3. Each of the three feature cells keeps the shape of the frame: when
    every column of the frame has one value per row, a frame the normalizer,
    the distance cell or the body-part cell returns has the same number of
    rows and again one value per row in every column, whatever the columns
    hold. *)
Theorem feature_cells_keep_shape df :
  well_formed df →
  ensures (normalize df) (same_shape df) ∧
  ensures (compute_distances df) (same_shape df) ∧
  ensures (determine_body_part df) (same_shape df).
Proof.
  intros Hwf. split_and!.
  - by apply normalize_shape.
  - by apply compute_distances_shape.
  - by apply determine_body_part_shape.
Qed.

Lemma feature_cells_keep_shape_witness :
  ensures (normalize two_shots) (same_shape two_shots) ∧
  ensures (compute_distances two_shots) (same_shape two_shots) ∧
  ensures (determine_body_part two_shots) (same_shape two_shots).
Proof. apply feature_cells_keep_shape, two_shots_well_formed. Defined.

(** ** The dataset the preparation gives *)

Lemma prepare_outcome df X y :
  outcome (prepare df) = inr (X, y) →
  ∃ df1 df2 df3,
    outcome (normalize df) = inr df1 ∧
    outcome (compute_distances df1) = inr df2 ∧
    outcome (determine_body_part df2) = inr df3 ∧
    outcome (construct_dataset df3) = inr (X, y).
Proof.
  unfold prepare.
  intros (df1 & H1 & (df2 & H2 & (df3 & H3 & H4)%outcome_bind)%outcome_bind)%outcome_bind.
  by exists df1, df2, df3.
Qed.

Lemma prepare_nrows df X y :
  outcome (prepare df) = inr (X, y) →
  f_index X = seq 0 (nrows df) ∧ s_index y = seq 0 (nrows df).
Proof.
  intros (df1 & df2 & df3 & H1 & H2 & H3 & H4)%prepare_outcome.
  destruct (construct_dataset_reads _ _ _ H4) as (HX & Hy & _).
  destruct (normalize_frame _ _ H1) as [Hn1 _].
  destruct (compute_distances_frame _ _ H2) as [Hn2 _].
  destruct (determine_body_part_frame _ _ H3) as [Hn3 _].
  rewrite HX, Hy. by rewrite Hn3, Hn2, Hn1.
Qed.

(** X4. When the preparation of a frame with one value per row in every
    column returns, [X] and [y] describe the same rows, the rows
    [0 .. nrows-1] of the frame in order; [X] has the seven feature columns
    in the order of [columns_features], and every column of [X] and the
    labels of [y] have one value per row. *)
Theorem prepare_aligned df X y :
  well_formed df → outcome (prepare df) = inr (X, y) →
  dataset X y ∧
  f_index X = seq 0 (nrows df) ∧
  (f_columns X).*1 = columns_features.
Proof.
  intros Hwf Hprep. split_and!; [|by apply (prepare_nrows df X y)|].
  - apply prepare_outcome in Hprep as (df1 & df2 & df3 & H1 & H2 & H3 & H4).
    apply (construct_dataset_dataset df3); [|done].
    destruct (normalize_shape df Hwf df1 H1) as [Hwf1 _].
    destruct (compute_distances_shape df1 Hwf1 df2 H2) as [Hwf2 _].
    by destruct (determine_body_part_shape df2 Hwf2 df3 H3) as [Hwf3 _].
  - apply prepare_outcome in Hprep as (df1 & df2 & df3 & H1 & H2 & H3 & H4).
    by destruct (construct_dataset_reads _ _ _ H4) as (_ & _ & Hk & _).
Qed.

Lemma prepare_aligned_witness :
  ∃ X y, outcome (prepare two_shots) = inr (X, y) ∧
    dataset X y ∧ f_index X = [0; 1]%nat ∧
    (f_columns X).*1 = columns_features.
Proof.
  destruct (prepare_returns two_shots two_shots_valid)
    as (df1 & xs & ys & c & t & _ & _ & _ & _ & _ & Hprep).
  eexists _, _. split; [by rewrite Hprep|].
  apply (prepare_aligned two_shots); [apply two_shots_well_formed|].
  by rewrite Hprep.
Defined.

(** X5. The number of shots the exploration cell prints and keeps is the
    number of rows of the [X] and of the [y] that the preparation of the same
    frame gives: no cell in between drops or adds a shot. *)
Theorem count_shots_is_dataset_size df X y :
  outcome (prepare df) = inr (X, y) →
  count_shots df
  = ([Printed "Our dataset contains {} shots."
        [SInt (Z.of_nat (length (f_index X)))]],
     inr (Z.of_nat (length (f_index X)))) ∧
  length (s_index y) = length (f_index X).
Proof.
  intros [HX Hy]%prepare_nrows. rewrite HX, Hy, length_seq. by split.
Qed.

Lemma count_shots_is_dataset_size_witness :
  ∃ X y, outcome (prepare two_shots) = inr (X, y) ∧
    count_shots two_shots
    = ([Printed "Our dataset contains {} shots." [SInt 2]], inr 2) ∧
    length (f_index X) = 2%nat ∧ length (s_index y) = 2%nat.
Proof.
  destruct (prepare_returns two_shots two_shots_valid)
    as (df1 & xs & ys & c & t & _ & _ & _ & _ & _ & Hprep).
  eexists _, _. split; [by rewrite Hprep|].
  assert (outcome (prepare two_shots) = inr
    (({| f_index := seq 0 (nrows two_shots); f_columns := _ |},
      {| s_index := seq 0 (nrows two_shots); s_values := t |}))) as H
    by (rewrite Hprep; reflexivity).
  destruct (count_shots_is_dataset_size two_shots _ _ H) as [Hc Hl].
  split_and!; [exact Hc|done|done].
Defined.

(** ** Running the feature cells again, and in the other order *)

Lemma frame_eq df1 df2 :
  nrows df1 = nrows df2 → (∀ key, columns df1 !! key = columns df2 !! key) →
  df1 = df2.
Proof.
  destruct df1, df2. cbn. intros -> Hcols. f_equal. by apply map_eq.
Qed.


Lemma start_keys_not_written action :
  action ∈ actions →
  (action +:+ "_start_x" ∉ distance_keys ++ indicator_keys) ∧
  (action +:+ "_start_y" ∉ distance_keys ++ indicator_keys) ∧
  (action +:+ "_body_part_id" ∉ distance_keys ++ indicator_keys).
Proof. intros Ha. each_member Ha; split_and!; not_in_keys. Qed.

Lemma same_except_weaken written written' df df' :
  written ⊆ written' → same_except written df df' → same_except written' df df'.
Proof. intros Hsub [Hn Hout]. split; [done|]. intros key Hkey. apply Hout.
  intros Hin. by apply Hkey, Hsub.
Qed.


Lemma has_body_parts_same_except df df' :
  same_except (distance_keys ++ indicator_keys) df df' →
  has_body_parts df → has_body_parts df'.
Proof.
  intros Hsame Hb action Ha.
  destruct (start_keys_not_written action Ha) as (_ & _ & Hk).
  rewrite (same_except_lookup _ _ _ _ Hsame) by done. by apply Hb.
Qed.



Lemma determine_body_part_columns df :
  has_body_parts df →
  ∃ df', determine_body_part df = mret df' ∧
    same_except (distance_keys ++ indicator_keys) df df' ∧
    (∀ action c, action ∈ actions →
       columns df !! (action +:+ "_body_part_id") = Some c →
       columns df' !! (action +:+ "_is_foot") = Some (eq_scalar c 0) ∧
       columns df' !! (action +:+ "_is_head") = Some (eq_scalar c 1) ∧
       columns df' !! (action +:+ "_is_other") = Some (eq_scalar c 2)) ∧
    (∀ key, key ∉ indicator_keys → columns df' !! key = columns df !! key).
Proof.
  intros Hb.
  destruct (returns_frame _ _ _ (determine_body_part_returns df Hb)
              (determine_body_part_frame df)) as (df' & Hrun & [Hn Hin] & Hout).
  exists df'. split_and!; [done| |done|apply Hout].
  apply (same_except_weaken indicator_keys); [|done].
  intros key Hkey. apply elem_of_app. by right.
Qed.


Lemma indicator_keys_inv key :
  key ∈ indicator_keys →
  ∃ action, action ∈ actions ∧
    (key = action +:+ "_is_foot" ∨ key = action +:+ "_is_head" ∨
     key = action +:+ "_is_other").
Proof.
  intros (action & Hkey & Ha)%list_elem_of_bind. exists action. split; [done|].
  each_member Hkey; auto.
Qed.

Lemma keys_apart action :
  action ∈ actions →
  (action +:+ "_start_distance" ∉ indicator_keys) ∧
  (action +:+ "_is_foot" ∉ distance_keys) ∧
  (action +:+ "_is_head" ∉ distance_keys) ∧
  (action +:+ "_is_other" ∉ distance_keys) ∧
  (action +:+ "_body_part_id" ∉ indicator_keys) ∧
  (action +:+ "_body_part_id" ∉ distance_keys).
Proof. intros Ha. each_member Ha; split_and!; not_in_keys. Qed.



(** X7. The body-part cell can be run again as well: a second run on the
    frame it returned returns that same frame. *)
Theorem determine_body_part_idempotent df :
  has_body_parts df →
  ∃ df', determine_body_part df = mret df' ∧ determine_body_part df' = mret df'.
Proof.
  intros Hb. destruct (determine_body_part_columns df Hb)
    as (df' & Hrun & Hsame & Hin & Hout).
  exists df'. split; [done|].
  destruct (determine_body_part_columns df' (has_body_parts_same_except _ _ Hsame Hb))
    as (df'' & Hrun' & Hsame' & Hin' & Hout').
  rewrite Hrun'. f_equal. apply frame_eq; [apply Hsame'|]. intros key.
  destruct (decide (key ∈ indicator_keys)) as [Hkey|Hkey]; [|by apply Hout'].
  apply indicator_keys_inv in Hkey as (action & Ha & Hkey).
  destruct (Hb action Ha) as [c Hc].
  destruct (keys_apart action Ha) as (_ & _ & _ & _ & Hid & _).
  destruct (Hin action c Ha Hc) as (Hf & Hh & Ho).
  destruct (Hin' action c Ha) as (Hf' & Hh' & Ho'); [by rewrite Hout|].
  destruct Hkey as [->| [->| ->]]; congruence.
Qed.

Lemma determine_body_part_idempotent_witness :
  ∃ df', determine_body_part two_shots = mret df' ∧
         determine_body_part df' = mret df'.
Proof. apply determine_body_part_idempotent, two_shots_body_parts. Defined.



(** ** Missing columns *)

Lemma body_part_KeyError action df :
  columns df !! (action +:+ "_body_part_id") = None →
  body_part action df = raise KeyError.
Proof. intros Hnone. unfold body_part. by rewrite (getitem_None _ _ Hnone). Qed.

(** X9. The body-part cell returns when the frame has the three body-part
    columns, whatever they hold, and raises KeyError when one of them is
    missing. *)
Theorem determine_body_part_missing_column df :
  (has_body_parts df → ∃ df', determine_body_part df = mret df') ∧
  (¬ has_body_parts df → determine_body_part df = raise KeyError).
Proof.
  split.
  { intros Hb. destruct (determine_body_part_returns df Hb) as (df' & Hrun & _).
    by exists df'. }
  intros Hnot. unfold determine_body_part, actions. cbn [for_each].
  destruct (columns df !! "action_body_part_id") as [c0|] eqn:H0;
    [|by rewrite (body_part_KeyError "action" df H0)].
  rewrite (body_part_returns "action" df c0), bind_mret_l by (done || by left).
  destruct (columns df !! "action1_body_part_id") as [c1|] eqn:H1.
  2: { rewrite (body_part_KeyError "action1"); [done|]. by lookup_setitem. }
  rewrite (body_part_returns "action1" _ c1), bind_mret_l
    by (by lookup_setitem || by right; left).
  destruct (columns df !! "action2_body_part_id") as [c2|] eqn:H2.
  2: { rewrite (body_part_KeyError "action2"); [done|]. by lookup_setitem. }
  destruct Hnot. intros action Ha. each_member Ha; eauto.
Qed.

Lemma getitem_all_present df keys :
  (∀ key, key ∈ keys → is_Some (columns df !! key)) →
  ∃ cs, map_cell (λ key, c ← getitem df key; mret (key, c)) keys = mret cs.
Proof.
  induction keys as [|k keys IH]; intros Hall; [by exists []|].
  destruct (Hall k) as [c Hc]; [left|].
  destruct IH as [cs Hcs]; [intros key Hkey; apply Hall; by right|].
  exists ((k, c) :: cs). cbn [map_cell].
  by rewrite (getitem_Some _ _ c Hc), !bind_mret_l, Hcs, bind_mret_l.
Qed.

Lemma getitem_one_missing df keys key :
  key ∈ keys → columns df !! key = None →
  map_cell (λ key, c ← getitem df key; mret (key, c)) keys = raise KeyError.
Proof.
  intros Hkey Hnone. induction keys as [|k keys IH]; [by apply elem_of_nil in Hkey|].
  cbn [map_cell]. destruct (columns df !! k) as [c|] eqn:Hc.
  - rewrite (getitem_Some _ _ c Hc), !bind_mret_l.
    apply elem_of_cons in Hkey as [->|Hkey]; [congruence|].
    by rewrite (IH Hkey).
  - by rewrite (getitem_None _ _ Hc).
Qed.

(** X10. The selection of [X] and [y] returns when the frame has the seven
    feature columns and the label column, and raises KeyError when one of
    them is missing, as it is for the features of a later cell when the
    selection is run before that cell. *)
Theorem construct_dataset_missing_column df :
  ((∀ key, key ∈ selected_keys → is_Some (columns df !! key)) →
   ∃ X y, construct_dataset df = mret (X, y)) ∧
  (∀ key, key ∈ selected_keys → columns df !! key = None →
   construct_dataset df = raise KeyError).
Proof.
  unfold construct_dataset, getitem_list, getitem_series, selected_keys. split.
  - intros Hall.
    destruct (getitem_all_present df columns_features) as [cs Hcs].
    { intros key Hkey. apply Hall, elem_of_app. by left. }
    destruct (Hall column_target) as [t Ht].
    { apply elem_of_app. right. by left. }
    eexists _, _. by rewrite Hcs, (getitem_Some _ _ t Ht), !bind_mret_l.
  - intros key [Hkey|Hkey]%elem_of_app Hnone.
    { by rewrite (getitem_one_missing df _ key Hkey Hnone). }
    apply list_elem_of_singleton in Hkey as ->.
    destruct (decide (Forall (λ key, is_Some (columns df !! key)) columns_features))
      as [Hall|Hsome].
    + destruct (getitem_all_present df columns_features) as [cs Hcs].
      { by apply Forall_forall. }
      by rewrite Hcs, (getitem_None _ _ Hnone), !bind_mret_l.
    + apply not_Forall_Exists, Exists_exists in Hsome as (key & Hkey & Hmiss);
        [|apply _].
      rewrite (getitem_one_missing df _ key Hkey); [done|].
      cbn in Hmiss. destruct (columns df !! key) as [c|]; [|done].
      destruct Hmiss. by exists c.
Qed.

Lemma iloc_row_first df key c :
  well_formed df → (0 < nrows df)%nat → columns df !! key = Some c →
  is_Some (iloc_row df 0 !! key).
Proof.
  intros Hwf Hn Hc. unfold iloc_row. rewrite lookup_omap, Hc. cbn.
  specialize (Hwf key c Hc).
  destruct c as [[|? ?]|[|? ?]|[|? ?]|[|? ?]]; cbn in *; eauto; lia.
Qed.

Lemma start_distance_KeyError action df :
  well_formed df → (0 < nrows df)%nat →
  columns df !! (action +:+ "_start_x") = None ∨
  columns df !! (action +:+ "_start_y") = None →
  start_distance action df = raise KeyError.
Proof.
  intros Hwf Hn Hmiss. unfold start_distance, apply_rows.
  destruct (nrows df) as [|n] eqn:Hrows; [lia|]. cbn [seq map_cell].
  assert (∀ key, columns df !! key = None → getitem_row (iloc_row df 0) key = raise KeyError)
    as Hrow.
  { intros key Hnone. unfold getitem_row, iloc_row. by rewrite lookup_omap, Hnone. }
  destruct (columns df !! (action +:+ "_start_x")) as [c|] eqn:Hx.
  - destruct Hmiss as [|Hy]; [done|].
    destruct (iloc_row_first df (action +:+ "_start_x") c Hwf) as [v Hv];
      [lia|done|].
    assert (getitem_row (iloc_row df 0) (action +:+ "_start_x") = mret v) as ->
      by (unfold getitem_row; by rewrite Hv).
    by rewrite bind_mret_l, (Hrow _ Hy).
  - by rewrite (Hrow _ Hx).
Qed.

Lemma numeric_all_rows df key i :
  well_formed df → is_Some (columns df !! key ≫= numeric) → (i < nrows df)%nat →
  is_Some (value df key i).
Proof.
  intros Hwf [xs Hxs] Hi. unfold value. rewrite Hxs. cbn.
  apply lookup_lt_is_Some.
  apply bind_Some in Hxs as (c & Hc & Hxs). specialize (Hwf key c Hc).
  destruct c; cbn in *; simplify_eq; by rewrite ?length_fmap, Hwf.
Qed.

Lemma length_distances df kx ky : length (distances df kx ky) = nrows df.
Proof. unfold distances. by rewrite length_fmap, length_seq. Qed.

Lemma start_distances_KeyError acts df :
  (∀ a a', a ∈ acts → a' ∈ acts →
     a' +:+ "_start_x" ≠ a +:+ "_start_distance" ∧
     a' +:+ "_start_y" ≠ a +:+ "_start_distance") →
  well_formed df → (0 < nrows df)%nat →
  (∀ a key, a ∈ acts → key ∈ [a +:+ "_start_x"; a +:+ "_start_y"] →
     columns df !! key = None ∨ is_Some (columns df !! key ≫= numeric)) →
  (∃ a key, a ∈ acts ∧ key ∈ [a +:+ "_start_x"; a +:+ "_start_y"] ∧
     columns df !! key = None) →
  for_each acts start_distance df = raise KeyError.
Proof.
  revert df. induction acts as [|a acts IH]; intros df Hapart Hwf Hn Hok Hmiss.
  { destruct Hmiss as (? & ? & []%elem_of_nil & _). }
  cbn [for_each].
  destruct (Hok a (a +:+ "_start_x")) as [Hx|Hx]; [left|left| |].
  { by rewrite (start_distance_KeyError a df Hwf Hn (or_introl Hx)). }
  destruct (Hok a (a +:+ "_start_y")) as [Hy|Hy]; [left|right; left| |].
  { by rewrite (start_distance_KeyError a df Hwf Hn (or_intror Hy)). }
  rewrite (start_distance_returns a df), bind_mret_l
    by (intros i Hi; split; by apply numeric_all_rows).
  apply IH.
  - intros a1 a2 Ha1 Ha2. apply Hapart; by right.
  - apply well_formed_setitem; [done|]. apply length_distances.
  - done.
  - intros a' key Ha' Hkey.
    rewrite lookup_setitem_ne; [apply (Hok a' key); [by right|done]|].
    destruct (Hapart a a') as [? ?]; [left|by right|]. each_member Hkey; done.
  - destruct Hmiss as (a' & key & [->|Ha']%elem_of_cons & Hkey & Hnone).
    { each_member Hkey; rewrite Hnone in *; by destruct Hx, Hy. }
    exists a', key. split_and!; [done..|].
    rewrite lookup_setitem_ne; [done|].
    destruct (Hapart a a') as [? ?]; [left|by right|]. each_member Hkey; done.
Qed.

Lemma start_keys_inv key :
  key ∈ start_keys ↔
  ∃ action, action ∈ actions ∧ key ∈ [action +:+ "_start_x"; action +:+ "_start_y"].
Proof.
  split.
  - intros (action & Hkey & Ha)%list_elem_of_bind. by exists action.
  - intros (action & Ha & Hkey). apply list_elem_of_bind. by exists action.
Qed.

(** X11. On a frame with at least one row and one value per row in every
    column, the distance cell raises KeyError when one of the six start
    columns is missing and the others hold numbers. *)
Theorem compute_distances_missing_column df :
  well_formed df → (0 < nrows df)%nat →
  (∀ key, key ∈ start_keys →
     columns df !! key = None ∨ is_Some (columns df !! key ≫= numeric)) →
  (∃ key, key ∈ start_keys ∧ columns df !! key = None) →
  compute_distances df = raise KeyError.
Proof.
  intros Hwf Hn Hok (key & (action & Ha & Hkey)%start_keys_inv & Hnone).
  apply start_distances_KeyError; [|done..| |by exists action, key].
  - intros a a' Ha1 Ha2. each_member Ha1; each_member Ha2; done.
  - intros a key' Ha' Hkey'. apply Hok, start_keys_inv. by exists a.
Qed.

Lemma compute_distances_missing_column_witness :
  compute_distances no_start_y = raise KeyError.
Proof.
  apply compute_distances_missing_column.
  - intros key c. revert key c. apply (bool_decide_unpack _). by vm_compute.
  - cbn. lia.
  - intros key Hkey. unfold start_keys in Hkey. cbn in Hkey.
    each_member Hkey; vm_compute; eauto.
  - exists "action1_start_y". split; [|by vm_compute].
    apply (bool_decide_unpack _). by vm_compute.
Defined.

(** ** The features of a shot, from the loaded frame *)






(** ** The range of the distance feature *)






(** ** The range and the errors of the baseline *)

Lemma ratio_range (p n : R) :
  (0 < n)%R → (0 <= p <= n)%R →
  (0 <= p / n <= 1)%R ∧ (p / n = 0 ↔ p = 0)%R ∧ (p / n = 1 ↔ p = n)%R.
Proof.
  intros Hn Hp.
  assert (p / n * n = p)%R as Hmul by (field; lra).
  assert (0 < / n)%R as Hinv by (by apply Rinv_0_lt_compat).
  split; [|split].
  - split.
    + apply Rmult_le_pos; lra.
    + apply (Rmult_le_reg_r n); [done|]. lra.
  - split; [intros H0; rewrite H0 in Hmul; lra|].
    intros ->. unfold Rdiv. lra.
  - split; [intros H1; rewrite H1 in Hmul; lra|].
    intros ->. field. lra.
Qed.

Lemma positive_ratio_range labels :
  labels ≠ [] →
  (0 <= positive_ratio labels <= 1)%R ∧
  (positive_ratio labels = 0%R ↔ positives labels = 0%nat) ∧
  (positive_ratio labels = 1%R ↔ positives labels = length labels).
Proof.
  intros Hne. unfold positive_ratio.
  pose proof (positives_le_length labels) as Hle.
  assert (0 < length labels)%nat as Hlen by (destruct labels; [done|cbn; lia]).
  destruct (ratio_range (IZR (Z.of_nat (positives labels)))
              (IZR (Z.of_nat (length labels)))) as (Hr & H0 & H1).
  { apply IZR_lt. lia. }
  { split; apply IZR_le; lia. }
  split; [done|split].
  - rewrite H0. split; [intros Hz%eq_IZR; lia|by intros ->].
  - rewrite H1. split; [intros Hz%eq_IZR; lia|by intros ->].
Qed.

(** X14. For a training set of at least one 0/1 label, the baseline the cell
    returns lies between 0 and 1; it is 0 only when no label is 1, and 1
    only when every label is 1. *)
Theorem auc_pr_baseline_range y_train labels :
  s_values y_train = Int64 labels → binary_labels labels → labels ≠ [] →
  Z.of_nat (length labels) < 2 ^ 63 →
  ∃ r, outcome (auc_pr_baseline y_train) = inr (SFloat r) ∧
    (0 <= r <= 1)%R ∧
    (r = 0%R ↔ positives labels = 0%nat) ∧
    (r = 1%R ↔ positives labels = length labels).
Proof.
  intros Hy Hbin Hne Hlen. exists (positive_ratio labels).
  rewrite (auc_pr_baseline_binary y_train labels) by done.
  split; [done|]. by apply positive_ratio_range.
Qed.

Lemma auc_pr_baseline_range_witness :
  ∃ r, outcome (auc_pr_baseline {| s_index := [0; 1; 2]%nat;
                                   s_values := Int64 [0; 1; 0] |})
       = inr (SFloat r) ∧ (0 <= r <= 1)%R ∧ r ≠ 0%R ∧ r ≠ 1%R.
Proof.
  destruct (auc_pr_baseline_range
              {| s_index := [0; 1; 2]%nat; s_values := Int64 [0; 1; 0] |}
              [0; 1; 0]) as (r & Hrun & Hr & H0 & H1);
    [done|repeat (constructor; [lia|]); constructor|done|cbn; lia|].
  exists r. split; [done|]. split; [done|]. split.
  - intros Hz. apply H0 in Hz. vm_compute in Hz. lia.
  - intros Hz. apply H1 in Hz. vm_compute in Hz. lia.
Defined.


(** ** The exceptions of the preparation *)

Section quiet_failure.
Context {A B : Type}.
Implicit Types (m : Cell A) (f : A → Cell B) (P : exn → Prop).





End quiet_failure.














(** ** The columns the dataset depends on *)

Lemma rel_body_part_derived Q df1 df2 action :
  (∀ c1 c2 k, Q (action +:+ "_body_part_id") c1 c2 →
     Q (action +:+ "_is_foot") (eq_scalar c1 k) (eq_scalar c2 k) ∧
     Q (action +:+ "_is_head") (eq_scalar c1 k) (eq_scalar c2 k) ∧
     Q (action +:+ "_is_other") (eq_scalar c1 k) (eq_scalar c2 k)) →
  related Q df1 df2 →
  cell_rel (related Q) (body_part action df1) (body_part action df2).
Proof.
  intros HQ Hdf. unfold body_part.
  eapply rel_bind; [by apply rel_getitem|]. intros c1 c2 Hc. cbn zeta.
  pose proof (related_setitem Q _ _ (action +:+ "_is_foot") _ _ Hdf
                (proj1 (HQ c1 c2 0 Hc))) as Hdf'.
  eapply rel_bind; [by apply rel_getitem|]. intros c1' c2' Hc'. cbn zeta.
  pose proof (related_setitem Q _ _ (action +:+ "_is_head") _ _ Hdf'
                (proj1 (proj2 (HQ c1' c2' 1 Hc')))) as Hdf''.
  eapply rel_bind; [by apply rel_getitem|]. intros c1'' c2'' Hc''.
  apply rel_mret, related_setitem; [done|]. by apply HQ.
Qed.

Lemma public_same_input key :
  key ∈ input_keys ++ columns_features → public same_input key.
Proof. intros Hkey c1 c2. unfold same_input. by rewrite decide_True. Qed.

Lemma same_input_other key c1 c2 :
  key ∉ input_keys ++ columns_features → key ∉ end_keys → same_input key c1 c2.
Proof. intros H1 H2. unfold same_input. by rewrite !decide_False. Qed.

Lemma same_input_end key c1 c2 :
  key ∉ input_keys ++ columns_features → key ∈ end_keys →
  same_input key c1 c2 ↔ is_Some (numeric c1) ∧ is_Some (numeric c2).
Proof. intros H1 H2. unfold same_input. by rewrite decide_False, decide_True. Qed.

(** X17. The dataset depends on eight columns of the loaded frame only: two
    frames with the same rows and column names that hold the same start
    locations of the three actions, the same body part of the shot and the
    same labels, and numbers as end locations, are prepared to the same [X]
    and [y], or fail alike, whatever their other columns hold. *)
Theorem prepare_reads_inputs df1 df2 :
  same_inputs df1 df2 → prepare df1 = prepare df2.
Proof.
  apply prepare_public.
  - intros key n Hin.
    apply coordinate_keys_inv in Hin as (action & side & Ha & Hs & Hkey).
    each_member Hs.
    + left. destruct Hkey as [[-> _]|[-> _]];
        each_member Ha; apply public_same_input; not_in_keys.
    + right.
      assert ((key ∉ input_keys ++ columns_features) ∧ key ∈ end_keys) as [H1 H2].
      { destruct Hkey as [[-> _]|[-> _]]; each_member Ha; split; not_in_keys. }
      split.
      * intros c1 c2. by rewrite same_input_end.
      * intros xs1 xs2. rewrite same_input_end by done. split; by eexists.
  - intros action Ha. each_member Ha; split_and!; apply public_same_input; not_in_keys.
  - intros df1' df2' action Ha Hdf'. apply rel_body_part_derived; [|done].
    intros c1 c2 k. each_member Ha.
    + intros ->%public_same_input; [|not_in_keys]. split_and!.
      * by apply public_same_input; [not_in_keys|].
      * by apply public_same_input; [not_in_keys|].
      * apply same_input_other; not_in_keys.
    + intros _. split_and!; apply same_input_other; not_in_keys.
    + intros _. split_and!; apply same_input_other; not_in_keys.
  - intros key Hkey. apply public_same_input, elem_of_app. by right.
  - apply public_same_input. not_in_keys.
Qed.

Lemma other_match_same_inputs : same_inputs two_shots other_match.
Proof.
  unfold other_match.
  apply related_setitem_r with (Float64 [84; 105]%R);
    [|vm_compute; reflexivity|apply same_input_end; [not_in_keys..|vm_compute; eauto]].
  apply related_setitem_r with (Int64 [0; 0]);
    [|vm_compute; reflexivity|apply same_input_other; not_in_keys].
  apply related_setitem_r with (Int64 [1; 1]);
    [|vm_compute; reflexivity|apply same_input_other; not_in_keys].
  apply related_refl. intros key c Hc. unfold same_input.
  case_decide as Hin; [done|]. case_decide as Hkey; [|done].
  unfold end_keys in Hkey. each_member Hkey;
    vm_compute in Hc; injection Hc as <-; vm_compute; eauto.
Qed.

Lemma prepare_reads_inputs_witness :
  ∃ X y, prepare two_shots = mret (X, y) ∧ prepare other_match = mret (X, y).
Proof.
  destruct (prepare_returns two_shots two_shots_valid)
    as (df1 & xs & ys & c & t & _ & _ & _ & _ & _ & Hrun).
  eexists _, _. split; [exact Hrun|].
  rewrite <- (prepare_reads_inputs two_shots other_match other_match_same_inputs).
  exact Hrun.
Defined.
